(** * Hybrid NOrec transactional memory (hynorec_cgrundey.cpp)

    A shallow embedding of the software path (NOrec), the HTM path and the
    hybrid dispatcher of [th_run], the argument check of [main], and the
    workload split among the threads.

    The software-path routines are modelled as functions over one state
    record: the shared globals ([accts], [seqlock], [counter]) and the
    thread-local variables of the running thread ([read_set], [write_set],
    [rv], [snap_counter], and the seed [tid] of [th_run]).  No other thread
    runs during a call, so every [seqlock] re-read sees what the thread
    itself left there.  Every spin loop takes a fuel argument; a loop that
    exhausts it ends in [Spins]. *)

From Stdlib Require Import ZArith List Lia Bool String Ascii.
Import ListNotations.
Open Scope Z_scope.

(** ** Constants of the source *)

Definition NUM_ACCTS : Z := 1000.
Definition NUM_TXN : Z := 100000.
Definition TRFR_AMT : Z := 50.
Definition INIT_BALANCE : Z := 1000.
(** [counter] and [snap_counter] are [pad_word_t[72]]. *)
Definition COUNTER_SLOTS : nat := 72.

(** [unsigned int] arithmetic wraps modulo 2^32. *)
Definition wrap32 (x : Z) : Z := x mod 2 ^ 32.
(** [uintptr_t] arithmetic wraps modulo 2^64. *)
Definition wrap64 (x : Z) : Z := x mod 2 ^ 64.

(** The range of [int]. *)
Definition INT_MIN : Z := - 2 ^ 31.
Definition INT_MAX : Z := 2 ^ 31 - 1.

(** [int] arithmetic: a result outside [INT_MIN, INT_MAX] is undefined in
    C++; g++ on x86-64 (no optimisation flag in the file's compile line)
    wraps it modulo 2^32 into the [int] range. *)
Definition wrap_int (x : Z) : Z :=
  let y := x mod 2 ^ 32 in if y >=? 2 ^ 31 then y - 2 ^ 32 else y.

(** ** Data model *)

(** [typedef struct { int addr; int value; } Acct;] *)
Record Acct := mkAcct { addr : Z; value : Z }.

#[projections(primitive)]
Record State := mkState {
  accts : list Acct;          (* vector<Acct> accts            (shared) *)
  seqlock : Z;                (* volatile unsigned int seqlock (shared) *)
  counter : list Z;           (* pad_word_t counter[72]        (shared) *)
  read_set : list Acct;       (* thread_local list<Acct> read_set *)
  write_set : list Acct;      (* thread_local list<Acct> write_set *)
  rv : Z;                     (* thread_local unsigned int rv *)
  snap_counter : list Z;      (* thread_local pad_word_t snap_counter[72] *)
  tid : Z                     (* unsigned int tid of th_run: the rand_r_32 seed *)
}.

Definition set_accts s a := mkState a (seqlock s) (counter s) (read_set s) (write_set s) (rv s) (snap_counter s) (tid s).
Definition set_seqlock s q := mkState (accts s) q (counter s) (read_set s) (write_set s) (rv s) (snap_counter s) (tid s).
Definition set_counter s c := mkState (accts s) (seqlock s) c (read_set s) (write_set s) (rv s) (snap_counter s) (tid s).
Definition set_read_set s r := mkState (accts s) (seqlock s) (counter s) r (write_set s) (rv s) (snap_counter s) (tid s).
Definition set_write_set s w := mkState (accts s) (seqlock s) (counter s) (read_set s) w (rv s) (snap_counter s) (tid s).
Definition set_rv s v := mkState (accts s) (seqlock s) (counter s) (read_set s) (write_set s) v (snap_counter s) (tid s).
Definition set_snap_counter s c := mkState (accts s) (seqlock s) (counter s) (read_set s) (write_set s) (rv s) c (tid s).
Definition set_tid s t := mkState (accts s) (seqlock s) (counter s) (read_set s) (write_set s) (rv s) (snap_counter s) t.

(** Indexing a vector or array: [v[i]].  Out of range the source has
    undefined behaviour; the model reads a zero and ignores a store there. *)
Definition in_range {A} (i : Z) (l : list A) : bool :=
  (0 <=? i) && (i <? Z.of_nat (List.length l)).

Definition load (i : Z) (l : list Acct) : Z :=
  if in_range i l then value (nth (Z.to_nat i) l (mkAcct 0 0)) else 0.

Fixpoint upd_nth {A} (n : nat) (f : A -> A) (l : list A) : list A :=
  match l, n with
  | [], _ => []
  | x :: l', O => f x :: l'
  | x :: l', S n' => x :: upd_nth n' f l'
  end.

(** [accts[i].value = v;] *)
Definition store (i v : Z) (l : list Acct) : list Acct :=
  if in_range i l then upd_nth (Z.to_nat i) (fun a => mkAcct (addr a) v) l else l.

(** ** Results of the software-path routines *)

(** [Done]: the routine returned; [Aborted]: [sw_abort] threw
    ["Transaction ABORTED"]; [Spins]: a spin loop ran out of fuel. *)
Inductive Res (A : Type) :=
| Done (a : A) (s : State)
| Aborted (s : State)
| Spins.
Arguments Done {A}.
Arguments Aborted {A}.
Arguments Spins {A}.

Definition bind {A B} (m : Res A) (k : A -> State -> Res B) : Res B :=
  match m with
  | Done a s => k a s
  | Aborted s => Aborted s
  | Spins => Spins
  end.

Notation "x <- m ;; k" := (bind m (fun x => k))
  (at level 61, m at next level, right associativity).

(** ** Software path (NOrec) *)

(** [sw_abort]: clear both logs and throw. *)
Definition sw_abort {A} (s : State) : Res A :=
  Aborted (set_write_set (set_read_set s []) []).

(** [do { rv = seqlock; } while (rv & 1);] *)
Fixpoint spin_even (fuel : nat) (s : State) : option State :=
  match fuel with
  | O => None
  | S f =>
      let s' := set_rv s (seqlock s) in
      if Z.testbit (rv s') 0 then spin_even f s' else Some s'
  end.

(** The read-set scan of [sw_validate]: [true] when every entry still
    holds its value in [accts]. *)
Definition reads_valid (rs : list Acct) (m : list Acct) : bool :=
  forallb (fun e => value e =? load (addr e) m) rs.

(** [sw_validate]: [do { spin; scan read set; } while (rv != seqlock);] *)
Fixpoint sw_validate (fuel : nat) (s : State) : Res unit :=
  match fuel with
  | O => Spins
  | S f =>
      match spin_even fuel s with
      | None => Spins
      | Some s1 =>
          if negb (reads_valid (read_set s1) (accts s1)) then sw_abort s1
          else if negb (rv s1 =? seqlock s1) then sw_validate f s1
          else Done tt s1
      end
  end.

(** [sw_begin]: spin for an even [seqlock], then copy [counter] into
    [snap_counter]. *)
Definition sw_begin (fuel : nat) (s : State) : Res unit :=
  match spin_even fuel s with
  | None => Spins
  | Some s1 => Done tt (set_snap_counter s1 (counter s1))
  end.

(** [while (!__sync_bool_compare_and_swap(&seqlock, rv, rv + 1)) sw_validate();] *)
Fixpoint cas_loop (fuel : nat) (s : State) : Res unit :=
  match fuel with
  | O => Spins
  | S f =>
      if seqlock s =? rv s then Done tt (set_seqlock s (wrap32 (rv s + 1)))
      else (_ <- sw_validate fuel s ;; fun s1 => cas_loop f s1)
  end.

(** [snap_counter[i].val != counter[i].val] for some [i < 72]. *)
Definition counters_differ (snap cnt : list Z) : bool :=
  existsb (fun i => negb (nth i snap 0 =? nth i cnt 0)) (seq 0 COUNTER_SLOTS).

(** The writeback loop: [accts[it->addr].value = it->value] in list order. *)
Definition writeback (ws : list Acct) (m : list Acct) : list Acct :=
  fold_left (fun m e => store (addr e) (value e) m) ws m.

(** [sw_commit]. *)
Definition sw_commit (fuel : nat) (s : State) : Res unit :=
  match write_set s with
  | [] => Done tt s
  | _ =>
      _ <- cas_loop fuel s ;; fun s1 =>
      _ <- (if counters_differ (snap_counter s1) (counter s1)
            then sw_validate fuel s1 else Done tt s1) ;; fun s2 =>
      let s3 := set_accts s2 (writeback (write_set s2) (accts s2)) in
      let s4 := set_seqlock s3 (wrap32 (seqlock s3 + 1)) in
      Done tt (set_write_set (set_read_set s4 []) [])
  end.

(** [while (rv != seqlock) { sw_validate(); val = accts[addr].value; }] *)
Fixpoint read_loop (fuel : nat) (a val : Z) (s : State) : Res Z :=
  match fuel with
  | O => Spins
  | S f =>
      if negb (rv s =? seqlock s) then
        (_ <- sw_validate fuel s ;; fun s1 => read_loop f a (load a (accts s1)) s1)
      else Done val s
  end.

(** [sw_read]: reverse scan of the write set, else a validated load that is
    appended to the read set. *)
Definition sw_read (fuel : nat) (a : Z) (s : State) : Res Z :=
  match find (fun e => addr e =? a) (rev (write_set s)) with
  | Some e => Done (value e) s
  | None =>
      v <- read_loop fuel a (load a (accts s)) s ;; fun s1 =>
      Done v (set_read_set s1 (read_set s1 ++ [mkAcct a v]))
  end.

(** [sw_write]: append to the write set. *)
Definition sw_write (a v : Z) (s : State) : Res unit :=
  Done tt (set_write_set s (write_set s ++ [mkAcct a v])).

(** ** The workload and the dispatcher of [th_run] *)

(** [rand_r_32.h] is not among the sources; the generator is a parameter:
    [rand_r_32 seed] is the returned [unsigned int] and the updated seed. *)
Section Workload.
Variable rand_r_32 : Z -> Z * Z.

(** [int r1 = 0, r2 = 0; while (r1 == r2) { r1 = rand_r_32(&tid) % NUM_ACCTS;
    r2 = rand_r_32(&tid) % NUM_ACCTS; }] *)
Fixpoint draw (fuel : nat) (r1 r2 : Z) (s : State) : option (Z * Z * State) :=
  match fuel with
  | O => None
  | S f =>
      if r1 =? r2 then
        let (x, t1) := rand_r_32 (tid s) in
        let (y, t2) := rand_r_32 t1 in
        draw f (wrap32 x mod NUM_ACCTS) (wrap32 y mod NUM_ACCTS) (set_tid s t2)
      else Some (r1, r2, s)
  end.

(** The body of the HTM region: [for (j = 0; j < 10; j++)], with
    [accts[r2].value = a2 - TRFR_AMT] as the source has it; both
    subtractions are [int] arithmetic. *)
Fixpoint htm_transfers (j fuel : nat) (s : State) : option State :=
  match j with
  | O => Some s
  | S j' =>
      match draw fuel 0 0 s with
      | None => None
      | Some (r1, r2, s1) =>
          let a1 := load r1 (accts s1) in
          if a1 <? TRFR_AMT then Some s1
          else
            let a2 := load r2 (accts s1) in
            let m := store r1 (wrap_int (a1 - TRFR_AMT)) (accts s1) in
            htm_transfers j' fuel (set_accts s1 (store r2 (wrap_int (a2 - TRFR_AMT)) m))
      end
  end.

Inductive HtmRes := HtmCommitted (s : State) | HtmAborted | HtmSpins.

(** One hardware attempt.  [ok] is the hardware's verdict on the region
    ([false]: the region aborts for a reason of its own).  An aborted region
    leaves no effect, the seed [tid] included.  [counter[tid].val += 1] uses
    [tid] as the generator left it.  Past the 72 slots of [counter] the
    store is out of bounds (undefined in C++): [counter + 64 * tid] lies up
    to 256 GiB past the array, the access faults, and a fault inside an RTM
    region aborts it.  The model aborts the region for every index past the
    array. *)
Definition htm_attempt (ok : bool) (fuel : nat) (s : State) : HtmRes :=
  if negb ok then HtmAborted
  else if Z.testbit (seqlock s) 0 then HtmAborted     (* _xabort(1) *)
  else match htm_transfers 10 fuel s with
       | None => HtmSpins
       | Some s1 =>
           if in_range (tid s1) (counter s1)
           then HtmCommitted (set_counter s1
                  (upd_nth (Z.to_nat (tid s1)) (fun c => wrap64 (c + 1)) (counter s1)))
           else HtmAborted
       end.

(** The body of the software attempt; [a1 - TRFR_AMT] and [a2 + TRFR_AMT]
    are [int] arithmetic. *)
Fixpoint sw_transfers (j fuel : nat) (s : State) : Res unit :=
  match j with
  | O => Done tt s
  | S j' =>
      match draw fuel 0 0 s with
      | None => Spins
      | Some (r1, r2, s1) =>
          a1 <- sw_read fuel r1 s1 ;; fun s2 =>
          if a1 <? TRFR_AMT then Done tt s2
          else
            a2 <- sw_read fuel r2 s2 ;; fun s3 =>
            _ <- sw_write r1 (wrap_int (a1 - TRFR_AMT)) s3 ;; fun s4 =>
            _ <- sw_write r2 (wrap_int (a2 + TRFR_AMT)) s4 ;; fun s5 =>
            sw_transfers j' fuel s5
      end
  end.

(** The [try] block: [sw_begin(); ... sw_commit();]. *)
Definition sw_attempt (fuel : nat) (s : State) : Res unit :=
  _ <- sw_begin fuel s ;; fun s1 =>
  _ <- sw_transfers 10 fuel s1 ;; fun s2 =>
  sw_commit fuel s2.

Inductive Attempt := HTM (committed : bool) | SW (committed : bool).

(** One user transaction: [do { int attempts = 5; again: ... } while (aborted);].
    [htm_ok k] is the hardware's verdict on the [k]-th region of the thread;
    the result is the attempts made, the state and the next region index. *)
Fixpoint txn_loop (n fuel : nat) (attempts : Z) (htm_ok : nat -> bool) (k : nat)
    (s : State) : option (list Attempt * State * nat) :=
  match n with
  | O => None
  | S n' =>
      match htm_attempt (htm_ok k) fuel s with
      | HtmCommitted s1 => Some ([HTM true], s1, S k)
      | HtmSpins => None
      | HtmAborted =>
          if attempts >? 0 then
            match txn_loop n' fuel (attempts - 1) htm_ok (S k) s with
            | Some (t, s1, k1) => Some (HTM false :: t, s1, k1)
            | None => None
            end
          else
            match sw_attempt fuel s with
            | Done _ s1 => Some ([HTM false; SW true], s1, S k)
            | Aborted s1 =>
                match txn_loop n' fuel 5 htm_ok (S k) s1 with
                | Some (t, s2, k1) => Some (HTM false :: SW false :: t, s2, k1)
                | None => None
                end
            | Spins => None
            end
      end
  end.

Definition txn (n fuel : nat) (htm_ok : nat -> bool) (k : nat) (s : State) :=
  txn_loop n fuel 5 htm_ok k s.

Definition committed_by_htm (t : list Attempt) : bool :=
  match last t (SW false) with HTM true => true | _ => false end.

(** [for (int i = 0; i < workload; i++) { ... }] with [htmCount++] and
    [swCount++]. *)
Fixpoint th_loop (i n fuel : nat) (htm_ok : nat -> bool) (k : nat)
    (htmCount swCount : Z) (s : State) : option (Z * Z * State) :=
  match i with
  | O => Some (htmCount, swCount, s)
  | S i' =>
      match txn n fuel htm_ok k s with
      | None => None
      | Some (t, s1, k1) =>
          if committed_by_htm t
          then th_loop i' n fuel htm_ok k1 (wrap32 (htmCount + 1)) swCount s1
          else th_loop i' n fuel htm_ok k1 htmCount (wrap32 (swCount + 1)) s1
      end
  end.

(** [th_run(id)]: [tid = id; workload = NUM_TXN / numThreads;]. *)
Definition th_run (numThreads id : Z) (n fuel : nat) (htm_ok : nat -> bool)
    (s : State) : option (Z * Z * State) :=
  let workload := Z.quot NUM_TXN numThreads in
  th_loop (Z.to_nat workload) n fuel htm_ok 0 0 0 (set_tid s (wrap32 id)).

End Workload.

(** ** [main]: the argument check and the threads it starts *)

(** [isspace] in the C locale. *)
Definition is_space (c : ascii) : bool :=
  let n := nat_of_ascii c in ((9 <=? n) && (n <=? 13))%nat || (n =? 32)%nat.

Fixpoint skip_spaces (s : string) : string :=
  match s with
  | String c r => if is_space c then skip_spaces r else s
  | EmptyString => s
  end.

Definition digit_of (c : ascii) : option Z :=
  let n := nat_of_ascii c in
  if ((48 <=? n) && (n <=? 57))%nat then Some (Z.of_nat n - 48) else None.

(** The decimal digits at the front of [s], accumulated onto [acc]. *)
Fixpoint digits (s : string) (acc : Z) : Z :=
  match s with
  | String c r => match digit_of c with Some d => digits r (acc * 10 + d) | None => acc end
  | EmptyString => acc
  end.

(** [strtol(s, NULL, 10)]: saturates at [LONG_MIN] and [LONG_MAX]. *)
Definition strtol (s : string) : Z :=
  let clamp x := Z.max (- 2 ^ 63) (Z.min (2 ^ 63 - 1) x) in
  match skip_spaces s with
  | String "-" r => clamp (- digits r 0)
  | String "+" r => clamp (digits r 0)
  | t => clamp (digits t 0)
  end.

(** [atoi(s)] as glibc has it: [(int) strtol(s, NULL, 10)], the conversion
    to [int] taken modulo 2^32. *)
Definition atoi (s : string) : Z :=
  let y := strtol s mod 2 ^ 32 in if y >=? 2 ^ 31 then y - 2 ^ 32 else y.

Definition usage_msg : string := "Usage: <# of threads 1-64>".

(** The outcome of the argument check: the process exits (with what it
    printed and its exit status), or it goes on with [numThreads]. *)
Inductive MainStart := Exit (printed : string) (status : Z) | Start (numThreads : Z).

(** Lines 229-238 of [main]; [argv] includes the program name. *)
Definition main_args (argv : list string) : MainStart :=
  if negb (Z.of_nat (List.length argv) =? 2) then Exit usage_msg 0
  else
    let numThreads := atoi (nth 1 argv EmptyString) in
    if (numThreads <=? 0) || (numThreads >? 64) then Exit usage_msg 0
    else Start numThreads.

(** [long ids = 1; for (int i = 1; i < numThreads; i++)
    { pthread_create(..., th_run, (void* )ids); ids++; }]: the ids handed to
    the created threads, [i] running from [i0] to [numThreads - 1]. *)
Fixpoint create_loop (steps : nat) (ids : Z) : list Z :=
  match steps with
  | O => []
  | S k => ids :: create_loop k (ids + 1)
  end.

(** The ids of all threads running [th_run]: the created ones, then
    [th_run(0)] on the main thread. *)
Definition thread_ids (numThreads : Z) : list Z :=
  create_loop (Z.to_nat (numThreads - 1)) 1 ++ [0].

(** [int workload = NUM_TXN / numThreads;] *)
Definition workload (numThreads : Z) : Z := Z.quot NUM_TXN numThreads.

(** ** Concrete states *)

(** The accounts after [main]'s initialisation loop. *)
Definition init_accts : list Acct :=
  map (fun i => mkAcct (Z.of_nat i) INIT_BALANCE) (seq 0 (Z.to_nat NUM_ACCTS)).

Definition zero_counters : list Z := repeat 0 COUNTER_SLOTS.

(** The process state when the threads start; [tid] is set by [th_run]. *)
Definition init_state : State :=
  mkState init_accts 0 zero_counters [] [] 0 zero_counters 0.

(** A software transaction that read account 0 and wrote nothing. *)
Definition ro_state : State :=
  mkState init_accts 0 zero_counters [mkAcct 0 INIT_BALANCE] [] 0 zero_counters 0.

(** A software transaction about to commit a transfer from account 0 to
    account 1, after thread 0 committed one hardware transaction since its
    [sw_begin]. *)
Definition htm_raced_state : State :=
  mkState init_accts 0 (1 :: repeat 0 (COUNTER_SLOTS - 1)) [mkAcct 0 1000; mkAcct 1 1000]
    [mkAcct 0 950; mkAcct 1 1050] 0 zero_counters 0.

(** A software transaction that read account 0 as 1000 while another
    thread has since committed ([seqlock] 2) and left 950 there. *)
Definition stale_state : State :=
  mkState (store 0 950 init_accts) 2 zero_counters [mkAcct 0 1000] [] 0 zero_counters 0.

(** A software transaction that read account 0 as 1000 while another
    thread has since committed ([seqlock] 2) without touching account 0. *)
Definition behind_state : State :=
  mkState init_accts 2 zero_counters [mkAcct 0 1000] [] 0 zero_counters 0.

(** A software transaction that buffered 7 for account 3 and then 9 for it. *)
Definition buffered_state : State :=
  mkState init_accts 0 zero_counters [] [mkAcct 3 7; mkAcct 1 5; mkAcct 3 9] 0 zero_counters 0.

(** A sample generator for concrete runs (any [rand_r_32] will do). *)
Definition sample_rand (seed : Z) : Z * Z :=
  let s' := wrap32 (seed * 1103515245 + 12345) in (s' / 65536, s').

(** A generator whose seed stays below 72, for concrete runs in which
    [counter[tid]] is an element of the array. *)
Definition small_rand (seed : Z) : Z * Z :=
  let s' := wrap32 (seed * 1103515245 + 12345) in (s' / 65536, s' mod 72).


Definition is_some {A} (o : option A) : bool :=
  match o with Some _ => true | None => false end.

Definition is_done {A} (r : Res A) : bool :=
  match r with Done _ _ => true | _ => false end.

(** Sum of the balances. *)
Fixpoint total (l : list Acct) : Z :=
  match l with [] => 0 | a :: l' => value a + total l' end.

(** ** [barrier] *)

(** [static volatile int barriers[16] = {0};] *)
Definition barriers_init : list Z := repeat 0 16.

(** [while (barriers[which] < numThreads) { }] *)
Fixpoint barrier_spin (fuel : nat) (which numThreads : Z) (bs : list Z) : option (list Z) :=
  match fuel with
  | O => None
  | S f =>
      if nth (Z.to_nat which) bs 0 <? numThreads then barrier_spin f which numThreads bs
      else Some bs
  end.

(** [barrier(which)]: [__sync_fetch_and_add(&barriers[which], 1)], then the
    spin; an index past the array is ignored (undefined in the source). *)
Definition barrier (fuel : nat) (which numThreads : Z) (bs : list Z) : option (list Z) :=
  let bs' := if in_range which bs then upd_nth (Z.to_nat which) (fun c => c + 1) bs else bs in
  barrier_spin fuel which numThreads bs'.

(** ** The rest of [main] *)

(** [for (int i = 0; i < NUM_ACCTS; i++) { Acct temp = {i, INIT_BALANCE};
    accts.push_back(temp); }] *)
Fixpoint init_loop (k : nat) (i : Z) (v : list Acct) : list Acct :=
  match k with
  | O => v
  | S k' => init_loop k' (i + 1) (v ++ [mkAcct i INIT_BALANCE])
  end.

(** [for (int i = 0; i < NUM_ACCTS; i++) totalMoney += accts[i].value;]
    (a [long] sum of at most 1000 [int]s: it does not overflow). *)
Fixpoint money_loop (k : nat) (i : Z) (m : list Acct) (acc : Z) : Z :=
  match k with
  | O => acc
  | S k' => money_loop k' (i + 1) m (acc + load i m)
  end.

(** The lines [main] and [th_run] print, in order; the elapsed time is left
    abstract. *)
Inductive Line :=
| NumberOfThreads (n : Z)                  (* "Number of threads: %d" *)
| ThreadLine (id htm sw tot : Z)           (* "Thread ID: %ld ... Total: %d" *)
| TotalTime                                (* "Total time = %lld ns" *)
| MoneyBefore (x : Z)                      (* "Total Money Before: $%ld" *)
| MoneyAfter (x : Z).                      (* "Total Money After:  $%ld" *)

(** The outcome of a run of [main]: it exits at the argument check, prints
    its lines and returns 0, or a spin loop runs out of fuel.  With more
    than one thread the threads run concurrently, which this sequential
    model does not cover ([Concurrent]). *)
Inductive MainRun :=
| Exited (printed : string) (status : Z)
| Finished (lines : list Line)
| Stuck
| Concurrent (numThreads : Z).

(** [main]: with one thread no [pthread_create] runs and [main] calls
    [th_run(0)] itself, so the run is sequential: [barrier(0)], the
    transactions, the thread's report, then the totals. *)
Definition main_run (rand : Z -> Z * Z) (n fuel : nat) (htm_ok : nat -> bool)
    (argv : list string) : MainRun :=
  match main_args argv with
  | Exit p st => Exited p st
  | Start numThreads =>
      if negb (numThreads =? 1) then Concurrent numThreads
      else
        let m := init_loop (Z.to_nat NUM_ACCTS) 0 [] in
        let before := money_loop (Z.to_nat NUM_ACCTS) 0 m 0 in
        match barrier fuel 0 numThreads barriers_init with
        | None => Stuck
        | Some _ =>
            match th_run rand numThreads 0 n fuel htm_ok
                    (mkState m 0 zero_counters [] [] 0 zero_counters 0) with
            | None => Stuck
            | Some (h, w, s) =>
                Finished [NumberOfThreads numThreads; ThreadLine 0 h w (wrap32 (h + w));
                          TotalTime; MoneyBefore before;
                          MoneyAfter (money_loop (Z.to_nat NUM_ACCTS) 0 (accts s) 0)]
            end
        end
  end.

(** All balances are non-negative. *)
Definition all_nonneg (l : list Acct) : bool := forallb (fun a => 0 <=? value a) l.

(** All balances lie in [lo, hi]. *)
Definition within (lo hi : Z) (l : list Acct) : bool :=
  forallb (fun a => (lo <=? value a) && (value a <=? hi)) l.

(** [view s] is memory as the transaction sees it, the
    write set laid over [accts]. *)
Definition view (s : State) : list Acct := writeback (write_set s) (accts s).


(** * Properties *)

(** ** Helper lemmas *)

Lemma rv_set_rv : forall s v, rv (set_rv s v) = v.
Proof. reflexivity. Qed.

Lemma accts_set_accts : forall s m, accts (set_accts s m) = m.
Proof. reflexivity. Qed.

Lemma odd_wrap32 : forall x, Z.testbit (wrap32 x) 0 = Z.testbit x 0.
Proof. intros x; unfold wrap32; apply Z.mod_pow2_bits_low; lia. Qed.

Lemma spin_even_odd : forall f s, Z.testbit (seqlock s) 0 = true -> spin_even f s = None.
Proof.
  induction f as [|f IH]; intros s H; [reflexivity|].
  cbn [spin_even]; cbv zeta. rewrite rv_set_rv, H. apply IH. exact H.
Qed.

Lemma spin_even_some : forall f s s1, spin_even f s = Some s1 ->
  s1 = set_rv s (seqlock s) /\ Z.testbit (seqlock s) 0 = false.
Proof.
  induction f as [|f IH]; intros s s1 H; [discriminate|].
  cbn [spin_even] in H; cbv zeta in H. rewrite rv_set_rv in H.
  destruct (Z.testbit (seqlock s) 0) eqn:E.
  - destruct (IH _ _ H) as [_ E'].
    change (seqlock (set_rv s (seqlock s))) with (seqlock s) in E'. congruence.
  - inversion H; subst; split; reflexivity.
Qed.

Lemma validate_spins_odd : forall fuel s, Z.testbit (seqlock s) 0 = true -> sw_validate fuel s = Spins.
Proof.
  intros [|f] s H; [reflexivity|]. cbn [sw_validate]. rewrite spin_even_odd; auto.
Qed.

(** ** C1 *)

(** Claim C1: when [sw_commit] has taken the writeback window ([seqlock] is
    [rv + 1] for an even [rv]) and no other thread changes [seqlock], a call
    of [sw_validate] never returns: its first loop waits for [seqlock] to
    become even, which only this thread could make happen. *)
Theorem sw_validate_spins_in_own_window : forall fuel s,
  Z.even (rv s) = true -> seqlock s = wrap32 (rv s + 1) ->
  sw_validate fuel s = Spins.
Proof.
  intros fuel s Hev Hq. apply validate_spins_odd.
  rewrite Hq, odd_wrap32, Z.bit0_odd, Z.odd_add, <- Z.negb_even, Hev. reflexivity.
Qed.

Lemma sw_validate_spins_in_own_window_witness :
  Z.even (rv (set_seqlock init_state 1)) = true /\
  seqlock (set_seqlock init_state 1) = wrap32 (rv (set_seqlock init_state 1) + 1) /\
  sw_validate 1000 (set_seqlock init_state 1) = Spins.
Proof.
  split; [reflexivity|]. split; [reflexivity|].
  apply sw_validate_spins_in_own_window; reflexivity.
Defined.

(** ** C4 *)

(** Claim C4: a commit with an empty write set returns at once; the read
    set it leaves is not cleared (here the entry of account 0 stays). *)
Theorem sw_commit_read_only_keeps_read_set : forall fuel,
  sw_commit fuel ro_state = Done tt ro_state /\ read_set ro_state = [mkAcct 0 1000].
Proof. intros fuel; split; reflexivity. Qed.

(** ** C7 *)

(** Claim C7: a commit that finds a counter slot changed since its begin
    calls [sw_validate] while holding the window and never finishes: no
    writeback, no release of [seqlock]. *)
Theorem sw_commit_spins_after_htm_commit : forall fuel,
  sw_commit fuel htm_raced_state = Spins.
Proof.
  intros [|f]; [reflexivity|].
  cbn -[sw_validate counters_differ].
  rewrite validate_spins_odd; reflexivity.
Qed.

(** ** C5 *)

(** Claim C5, as stated: [sw_begin] leaves both logs empty.  It does not:
    a read set left by a read-only commit survives it. *)
Lemma sw_begin_keeps_stale_read_set :
  ~ (forall fuel s s', sw_begin fuel s = Done tt s' -> read_set s' = [] /\ write_set s' = []).
Proof.
  intros H. destruct (H 1%nat ro_state (set_snap_counter ro_state zero_counters) eq_refl) as [E _].
  discriminate.
Qed.

(** Claim C5, as amended: [sw_begin] spins while [seqlock] is odd; once it
    reads an even value it stores it in [rv] and copies [counter] into
    [snap_counter], and changes nothing else: the read and write sets are
    left as they were. *)
Theorem sw_begin_spec : forall fuel s,
  (Z.odd (seqlock s) = true -> sw_begin fuel s = Spins) /\
  (Z.even (seqlock s) = true ->
     sw_begin (S fuel) s = Done tt (set_snap_counter (set_rv s (seqlock s)) (counter s))) /\
  (forall s', sw_begin fuel s = Done tt s' ->
     rv s' = seqlock s /\ Z.even (rv s') = true /\ snap_counter s' = counter s /\
     read_set s' = read_set s /\ write_set s' = write_set s /\
     accts s' = accts s /\ seqlock s' = seqlock s /\ counter s' = counter s).
Proof.
  intros fuel s. split; [|split].
  - intros H. unfold sw_begin. rewrite spin_even_odd; [reflexivity|].
    rewrite Z.bit0_odd; exact H.
  - intros H. unfold sw_begin. cbn [spin_even]; cbv zeta. rewrite rv_set_rv, Z.bit0_odd.
    rewrite <- Z.negb_even, H. reflexivity.
  - intros s' H. unfold sw_begin in H.
    destruct (spin_even fuel s) as [s1|] eqn:E; [|discriminate].
    apply spin_even_some in E as [-> Hb]. injection H as <-.
    rewrite Z.bit0_odd, <- Z.negb_even in Hb.
    cbn. repeat split; try reflexivity. destruct (Z.even (seqlock s)); easy.
Qed.

Lemma sw_begin_spec_witness :
  Z.even (seqlock init_state) = true /\
  sw_begin 1 init_state = Done tt (set_snap_counter (set_rv init_state 0) zero_counters).
Proof.
  split; [reflexivity|]. apply (proj1 (proj2 (sw_begin_spec 0 init_state))). reflexivity.
Defined.

(** ** C9 *)

(** Claim C9, as stated: a missing argument ends in a non-zero exit status.
    [main] calls [exit(0)]. *)
Lemma main_missing_argument_exits_zero :
  ~ (exists out code, main_args ["hynorec"%string] = Exit out code /\ code <> 0).
Proof.
  intros [out [code [E N]]]. vm_compute in E. injection E as _ <-. lia.
Qed.

(** Claim C9, as amended: when the argument count is not one, or [atoi] of
    the argument is not in [1..64], [main] prints the usage message and
    exits with status 0. *)
Theorem main_args_usage : forall argv,
  (List.length argv <> 2%nat \/ atoi (nth 1 argv EmptyString) <= 0 \/
   64 < atoi (nth 1 argv EmptyString)) ->
  main_args argv = Exit usage_msg 0.
Proof.
  intros argv H. unfold main_args.
  destruct (Z.of_nat (List.length argv) =? 2) eqn:E.
  - apply Z.eqb_eq in E. cbn [negb].
    destruct H as [H|[H|H]]; [lia| |].
    + replace (atoi (nth 1 argv EmptyString) <=? 0) with true by (symmetry; apply Z.leb_le; lia).
      reflexivity.
    + replace (atoi (nth 1 argv EmptyString) >? 64) with true by (symmetry; apply Z.gtb_lt; lia).
      rewrite orb_true_r. reflexivity.
  - reflexivity.
Qed.

Lemma main_args_usage_witness :
  (64 < atoi "65"%string) /\ main_args ["hynorec"%string; "65"%string] = Exit usage_msg 0.
Proof.
  split; [vm_compute; reflexivity|].
  apply main_args_usage. right; right. vm_compute; reflexivity.
Defined.

(** ** C2 *)

(** Claim C2: when the hardware aborts every region, a transaction makes
    six HTM attempts ([attempts] = 5, 4, 3, 2, 1, 0) before its software
    attempt, one more than the five of the file's header. *)
Theorem dispatcher_six_htm_attempts : forall rand n fuel htm_ok k s,
  (forall j, (k <= j <= k + 5)%nat -> htm_ok j = false) ->
  is_done (sw_attempt rand fuel s) = true ->
  exists s', sw_attempt rand fuel s = Done tt s' /\
    txn rand (7 + n) fuel htm_ok k s =
      Some ([HTM false; HTM false; HTM false; HTM false; HTM false; HTM false; SW true],
            s', (k + 6)%nat).
Proof.
  intros rand n fuel htm_ok k s Hoff Hd.
  destruct (sw_attempt rand fuel s) as [[] s'| |] eqn:E; try discriminate.
  exists s'. split; [reflexivity|].
  unfold txn. cbn [txn_loop Nat.add].
  rewrite (Hoff k), (Hoff (S k)), (Hoff (S (S k))), (Hoff (S (S (S k)))),
    (Hoff (S (S (S (S k))))), (Hoff (S (S (S (S (S k)))))) by lia.
  cbn -[sw_attempt].
  rewrite E. f_equal. f_equal. lia.
Qed.

Lemma dispatcher_six_htm_attempts_witness :
  exists s', sw_attempt sample_rand 20 (set_tid init_state 1) = Done tt s' /\
    txn sample_rand 7 20 (fun _ => false) 0 (set_tid init_state 1) =
      Some ([HTM false; HTM false; HTM false; HTM false; HTM false; HTM false; SW true],
            s', 6%nat).
Proof.
  apply (dispatcher_six_htm_attempts sample_rand 0 20 (fun _ => false) 0 (set_tid init_state 1)).
  - intros; reflexivity.
  - vm_compute; reflexivity.
Defined.

(** ** C10 *)

Lemma wrap32_small : forall x, 0 <= x < 2 ^ 32 -> wrap32 x = x.
Proof. intros x H. unfold wrap32. apply Z.mod_small. exact H. Qed.

Lemma th_loop_count : forall rand i n fuel htm_ok k h w s h' w' s',
  th_loop rand i n fuel htm_ok k h w s = Some (h', w', s') ->
  0 <= h -> 0 <= w -> h + w + Z.of_nat i < 2 ^ 32 ->
  h' + w' = h + w + Z.of_nat i.
Proof.
  induction i as [|i IH]; intros n fuel htm_ok k h w s h' w' s' E Hh Hw Hb.
  - cbn in E. injection E as <- <- _. lia.
  - cbn [th_loop] in E.
    destruct (txn rand n fuel htm_ok k s) as [[[t s1] k1]|]; [|discriminate].
    destruct (committed_by_htm t).
    + rewrite wrap32_small in E by lia.
      apply IH in E; lia.
    + rewrite wrap32_small in E by lia.
      apply IH in E; lia.
Qed.

Lemma create_loop_length : forall m i, List.length (create_loop m i) = m.
Proof. induction m as [|m IH]; intros i; cbn; [reflexivity|]. rewrite IH; reflexivity. Qed.

Lemma create_loop_in : forall m i x, In x (create_loop m i) -> i <= x.
Proof.
  induction m as [|m IH]; intros i x H; cbn in H; [contradiction|].
  destruct H as [<-|H]; [lia|]. apply IH in H. lia.
Qed.

Lemma create_loop_nodup : forall m i, NoDup (create_loop m i).
Proof.
  induction m as [|m IH]; intros i; cbn; constructor; [|apply IH].
  intros H. apply create_loop_in in H. lia.
Qed.

Lemma workload_bounds : forall numThreads, 1 <= numThreads <= 64 ->
  workload numThreads = NUM_TXN / numThreads /\ 0 <= workload numThreads <= NUM_TXN.
Proof.
  intros n Hn. unfold workload. rewrite Z.quot_div_nonneg by (unfold NUM_TXN; lia).
  split; [reflexivity|]. split.
  - apply Z.div_pos; unfold NUM_TXN; lia.
  - apply Z.div_le_upper_bound; unfold NUM_TXN; lia.
Qed.

(** Claim C10: for [1 <= numThreads <= 64], [main] starts [numThreads]
    distinct threads; every run of [th_run] that finishes commits
    [NUM_TXN / numThreads] transactions, so all of them commit
    [numThreads * (NUM_TXN / numThreads)], less than [NUM_TXN] when
    [numThreads] does not divide it (99999 for three threads). *)
Theorem workload_split : forall numThreads, 1 <= numThreads <= 64 ->
  List.length (thread_ids numThreads) = Z.to_nat numThreads /\
  NoDup (thread_ids numThreads) /\
  (forall rand (n fuel : nat) (htm_ok : Z -> nat -> bool) (start : Z -> State) results,
     Forall2 (fun id r => th_run rand numThreads id n fuel (htm_ok id) (start id) = Some r)
       (thread_ids numThreads) results ->
     Forall (fun r => fst (fst r) + snd (fst r) = NUM_TXN / numThreads) results /\
     fold_right (fun r acc => fst (fst r) + snd (fst r) + acc) 0 results
       = numThreads * (NUM_TXN / numThreads)) /\
  (NUM_TXN mod numThreads <> 0 -> numThreads * (NUM_TXN / numThreads) < NUM_TXN) /\
  (numThreads = 3 -> numThreads * (NUM_TXN / numThreads) = 99999).
Proof.
  intros nt Hnt. destruct (workload_bounds nt Hnt) as [Hw Hwb].
  assert (Hlen : List.length (thread_ids nt) = Z.to_nat nt).
  { unfold thread_ids. rewrite length_app, create_loop_length. cbn. lia. }
  split; [exact Hlen|]. split; [|split; [|split]].
  - unfold thread_ids. apply NoDup_app.
    + apply create_loop_nodup.
    + constructor; [intros []|constructor].
    + intros a Ha [<-|[]]. apply create_loop_in in Ha. lia.
  - intros rand n fuel htm_ok start results HF.
    assert (Hper : Forall (fun r => fst (fst r) + snd (fst r) = NUM_TXN / nt) results).
    { clear Hlen. induction HF as [|id [[h w] s'] ids rs Hr _ IH]; constructor; [|exact IH].
      cbn. unfold th_run in Hr. apply th_loop_count in Hr; try lia.
      - fold (workload nt) in Hr. rewrite Z2Nat.id in Hr by lia. lia.
      - fold (workload nt). rewrite Z2Nat.id by lia. unfold NUM_TXN in Hwb. lia. }
    split; [exact Hper|].
    apply Forall2_length in HF. rewrite Hlen in HF.
    assert (Hsum : forall rs : list (Z * Z * State),
      Forall (fun r => fst (fst r) + snd (fst r) = NUM_TXN / nt) rs ->
      fold_right (fun r acc => fst (fst r) + snd (fst r) + acc) 0 rs
        = Z.of_nat (List.length rs) * (NUM_TXN / nt)).
    { induction rs as [|r rs IH]; intros Hrs; [reflexivity|].
      inversion Hrs as [|? ? Hr Hrs']; subst. cbn [fold_right List.length].
      rewrite IH by exact Hrs'. rewrite Hr. lia. }
    rewrite Hsum by exact Hper. rewrite <- HF, Z2Nat.id by lia. reflexivity.
  - intros Hm. pose proof (Z.div_mod NUM_TXN nt ltac:(lia)).
    pose proof (Z.mod_pos_bound NUM_TXN nt ltac:(lia)). lia.
  - intros ->. reflexivity.
Qed.

Lemma workload_split_witness :
  (1 <= 3 <= 64) /\ 3 * (NUM_TXN / 3) = 99999 /\ List.length (thread_ids 3) = 3%nat.
Proof.
  split; [lia|]. destruct (workload_split 3 ltac:(lia)) as [L [_ [_ [_ T]]]].
  split; [apply T; reflexivity | exact L].
Defined.

(** ** Effects of the software-path routines *)

Lemma validate_done : forall f s s1, sw_validate f s = Done tt s1 -> s1 = set_rv s (seqlock s).
Proof.
  intros [|f] s s1 H; [discriminate|]. cbn [sw_validate] in H.
  destruct (spin_even (S f) s) as [s0|] eqn:E; [|discriminate].
  apply spin_even_some in E as [-> _].
  change (rv (set_rv s (seqlock s))) with (seqlock s) in H.
  change (seqlock (set_rv s (seqlock s))) with (seqlock s) in H.
  rewrite Z.eqb_refl in H. destruct (reads_valid _ _); cbn in H; [|discriminate].
  injection H as <-. reflexivity.
Qed.

Lemma validate_aborted : forall f s s1, sw_validate f s = Aborted s1 ->
  s1 = set_write_set (set_read_set (set_rv s (seqlock s)) []) [].
Proof.
  intros [|f] s s1 H; [discriminate|]. cbn [sw_validate] in H.
  destruct (spin_even (S f) s) as [s0|] eqn:E; [|discriminate].
  apply spin_even_some in E as [-> _].
  change (rv (set_rv s (seqlock s))) with (seqlock s) in H.
  change (seqlock (set_rv s (seqlock s))) with (seqlock s) in H.
  rewrite Z.eqb_refl in H. destruct (reads_valid _ _); cbn in H; [discriminate|].
  injection H as <-. reflexivity.
Qed.

Lemma read_loop_done : forall f a val s v s1, read_loop f a val s = Done v s1 ->
  (rv s = seqlock s /\ v = val /\ s1 = s) \/
  (rv s <> seqlock s /\ sw_validate f s = Done tt (set_rv s (seqlock s)) /\
   v = load a (accts s) /\ s1 = set_rv s (seqlock s)).
Proof.
  intros [|f] a val s v s1 H; [discriminate|]. cbn [read_loop] in H.
  destruct (rv s =? seqlock s) eqn:E; cbn [negb] in H.
  - apply Z.eqb_eq in E. injection H as <- <-. left; auto.
  - apply Z.eqb_neq in E. right.
    destruct (sw_validate (S f) s) as [[] s0| |] eqn:V; cbn [bind] in H; try discriminate.
    pose proof (validate_done _ _ _ V) as ->.
    destruct f as [|f]; [discriminate|]. cbn [read_loop] in H.
    change (rv (set_rv s (seqlock s))) with (seqlock s) in H.
    change (seqlock (set_rv s (seqlock s))) with (seqlock s) in H.
    rewrite Z.eqb_refl in H. cbn [negb] in H. injection H as <- <-. auto.
Qed.

Lemma read_loop_aborted : forall f a val s s1, read_loop f a val s = Aborted s1 ->
  accts s1 = accts s /\ read_set s1 = [] /\ write_set s1 = [].
Proof.
  intros [|f] a val s s1 H; [discriminate|]. cbn [read_loop] in H.
  destruct (rv s =? seqlock s); cbn [negb] in H; [discriminate|].
  destruct (sw_validate (S f) s) as [[] s0|s0|] eqn:V; cbn [bind] in H; try discriminate.
  - pose proof (validate_done _ _ _ V) as ->.
    destruct f as [|f]; [discriminate|]. cbn [read_loop] in H.
    change (rv (set_rv s (seqlock s))) with (seqlock s) in H.
    change (seqlock (set_rv s (seqlock s))) with (seqlock s) in H.
    rewrite Z.eqb_refl in H. discriminate.
  - injection H as <-. apply validate_aborted in V as ->. auto.
Qed.

Lemma cas_loop_done : forall f s s1, cas_loop f s = Done tt s1 ->
  accts s1 = accts s /\ write_set s1 = write_set s /\ read_set s1 = read_set s /\
  counter s1 = counter s /\ snap_counter s1 = snap_counter s.
Proof.
  induction f as [|f IH]; intros s s1 H; [discriminate|]. cbn [cas_loop] in H.
  destruct (seqlock s =? rv s).
  - injection H as <-. repeat split.
  - destruct (sw_validate (S f) s) as [[] s0| |] eqn:V; cbn [bind] in H; try discriminate.
    apply validate_done in V as ->. apply IH in H. exact H.
Qed.

Lemma cas_loop_aborted : forall f s s1, cas_loop f s = Aborted s1 ->
  accts s1 = accts s /\ read_set s1 = [] /\ write_set s1 = [].
Proof.
  induction f as [|f IH]; intros s s1 H; [discriminate|]. cbn [cas_loop] in H.
  destruct (seqlock s =? rv s); [discriminate|].
  destruct (sw_validate (S f) s) as [[] s0|s0|] eqn:V; cbn [bind] in H; try discriminate.
  - apply validate_done in V as ->. apply IH in H. exact H.
  - injection H as <-. apply validate_aborted in V as ->. auto.
Qed.

Lemma sw_read_done : forall f a s v s1, sw_read f a s = Done v s1 ->
  accts s1 = accts s /\ write_set s1 = write_set s.
Proof.
  intros f a s v s1 H. unfold sw_read in H.
  destruct (find _ _); [injection H as _ <-; auto|].
  destruct (read_loop f a (load a (accts s)) s) as [v0 s0| |] eqn:R; cbn [bind] in H; try discriminate.
  injection H as _ <-. apply read_loop_done in R as [[_ [_ ->]]|[_ [_ [_ ->]]]]; auto.
Qed.

Lemma sw_read_aborted : forall f a s s1, sw_read f a s = Aborted s1 ->
  accts s1 = accts s /\ read_set s1 = [] /\ write_set s1 = [].
Proof.
  intros f a s s1 H. unfold sw_read in H.
  destruct (find _ _); [discriminate|].
  destruct (read_loop f a (load a (accts s)) s) as [v0 s0|s0|] eqn:R; cbn [bind] in H; try discriminate.
  injection H as <-. apply read_loop_aborted in R. exact R.
Qed.

Lemma sw_commit_aborted : forall f s s1, sw_commit f s = Aborted s1 ->
  accts s1 = accts s /\ read_set s1 = [] /\ write_set s1 = [].
Proof.
  intros f s s1 H. unfold sw_commit in H. destruct (write_set s); [discriminate|].
  destruct (cas_loop f s) as [[] s0|s0|] eqn:C; cbn [bind] in H; try discriminate.
  - apply cas_loop_done in C as [Ha _].
    destruct (counters_differ _ _); [|discriminate].
    destruct (sw_validate f s0) as [[] s2|s2|] eqn:V; cbn [bind] in H; try discriminate.
    injection H as <-. apply validate_aborted in V as ->. auto.
  - injection H as <-. apply cas_loop_aborted in C. exact C.
Qed.

Lemma sw_begin_done : forall f s s1, sw_begin f s = Done tt s1 ->
  accts s1 = accts s /\ write_set s1 = write_set s.
Proof.
  intros f s s1 H. unfold sw_begin in H.
  destruct (spin_even f s) as [s0|] eqn:E; [|discriminate].
  apply spin_even_some in E as [-> _]. injection H as <-. auto.
Qed.

(** ** C6 *)

(** Claim C6: [sw_read a] returns the last value buffered for [a] (the
    reverse scan), leaving the state as it is; otherwise it loads [a] from
    [accts], runs [sw_validate] and re-loads when [rv <> seqlock], appends
    [(a, value)] to the read set and returns that value. *)
Theorem sw_read_spec : forall fuel a s,
  (forall e, find (fun e => addr e =? a) (rev (write_set s)) = Some e ->
     sw_read fuel a s = Done (value e) s) /\
  (find (fun e => addr e =? a) (rev (write_set s)) = None ->
   forall v s', sw_read fuel a s = Done v s' ->
     exists s1, (if rv s =? seqlock s then s1 = s else sw_validate fuel s = Done tt s1) /\
       v = load a (accts s1) /\ accts s1 = accts s /\ write_set s1 = write_set s /\
       s' = set_read_set s1 (read_set s ++ [mkAcct a v])).
Proof.
  intros fuel a s. split.
  - intros e He. unfold sw_read. rewrite He. reflexivity.
  - intros Hn v s' H. unfold sw_read in H. rewrite Hn in H.
    destruct (read_loop fuel a (load a (accts s)) s) as [v0 s0| |] eqn:R;
      cbn [bind] in H; try discriminate.
    injection H as <- <-.
    apply read_loop_done in R as [[Hrv [-> ->]]|[Hrv [V [-> ->]]]].
    + exists s. rewrite Hrv, Z.eqb_refl. repeat split.
    + exists (set_rv s (seqlock s)). apply Z.eqb_neq in Hrv. rewrite Hrv.
      repeat split; exact V.
Qed.

Lemma sw_read_spec_witness :
  find (fun e => addr e =? 3) (rev (write_set buffered_state)) = Some (mkAcct 3 9) /\
  sw_read 5 3 buffered_state = Done 9 buffered_state /\
  find (fun e => addr e =? 1) (rev (write_set behind_state)) = None /\
  sw_read 5 1 behind_state = Done 1000 (set_read_set (set_rv behind_state 2) [mkAcct 0 1000; mkAcct 1 1000]) /\
  (exists s1, sw_validate 5 behind_state = Done tt s1 /\ 1000 = load 1 (accts s1)).
Proof.
  assert (Hf : find (fun e => addr e =? 3) (rev (write_set buffered_state)) = Some (mkAcct 3 9))
    by reflexivity.
  assert (Hn : find (fun e => addr e =? 1) (rev (write_set behind_state)) = None) by reflexivity.
  assert (Hr : sw_read 5 1 behind_state =
               Done 1000 (set_read_set (set_rv behind_state 2) [mkAcct 0 1000; mkAcct 1 1000]))
    by (vm_compute; reflexivity).
  split; [exact Hf|]. split; [exact (proj1 (sw_read_spec 5 3 buffered_state) _ Hf)|].
  split; [exact Hn|]. split; [exact Hr|].
  destruct (proj2 (sw_read_spec 5 1 behind_state) Hn _ _ Hr) as [s1 [V [L _]]].
  exists s1. split; [exact V | exact L].
Defined.

(** ** C8 *)

(** Claim C8: a routine that aborts ([sw_read], whose validation may fail,
    and [sw_commit], whose validations precede the writeback) leaves both
    logs empty and [accts] as it found it; the routines that return
    ([sw_begin], [sw_read]) store nothing in [accts], and [sw_write] only
    appends to the write set.  So an aborting attempt has modified no
    account. *)
Theorem sw_abort_has_no_effect : forall fuel a v s,
  (forall s', sw_read fuel a s = Aborted s' ->
     read_set s' = [] /\ write_set s' = [] /\ accts s' = accts s) /\
  (forall s', sw_commit fuel s = Aborted s' ->
     read_set s' = [] /\ write_set s' = [] /\ accts s' = accts s) /\
  (forall x s', sw_read fuel a s = Done x s' -> accts s' = accts s) /\
  (forall s', sw_begin fuel s = Done tt s' -> accts s' = accts s) /\
  sw_write a v s = Done tt (set_write_set s (write_set s ++ [mkAcct a v])).
Proof.
  intros fuel a v s. split; [|split; [|split; [|split]]].
  - intros s' H. apply sw_read_aborted in H as [? [? ?]]. auto.
  - intros s' H. apply sw_commit_aborted in H as [? [? ?]]. auto.
  - intros x s' H. apply sw_read_done in H as [? _]. auto.
  - intros s' H. apply sw_begin_done in H as [? _]. auto.
  - reflexivity.
Qed.

Lemma sw_abort_has_no_effect_witness :
  sw_read 5 1 stale_state = Aborted (set_write_set (set_read_set (set_rv stale_state 2) []) []) /\
  accts (set_write_set (set_read_set (set_rv stale_state 2) []) []) = accts stale_state.
Proof.
  assert (H : sw_read 5 1 stale_state =
              Aborted (set_write_set (set_read_set (set_rv stale_state 2) []) []))
    by (vm_compute; reflexivity).
  split; [exact H|].
  exact (proj2 (proj2 (proj1 (sw_abort_has_no_effect 5 1 0 stale_state) _ H))).
Defined.

(** ** Balances: the HTM body and the software body *)

Lemma length_upd_nth : forall {A} n (f : A -> A) l, List.length (upd_nth n f l) = List.length l.
Proof. intros A n f l; revert n; induction l as [|x l IH]; intros [|n]; cbn; auto. Qed.

Lemma length_store : forall i v l, List.length (store i v l) = List.length l.
Proof. intros i v l; unfold store; destruct (in_range i l); auto using length_upd_nth. Qed.

Lemma in_range_store : forall j i v l, in_range j (store i v l) = in_range j l.
Proof. intros; unfold in_range; rewrite length_store; reflexivity. Qed.

Lemma nth_upd_same : forall {A} n (f : A -> A) l d, (n < List.length l)%nat ->
  nth n (upd_nth n f l) d = f (nth n l d).
Proof.
  intros A n f l d; revert n; induction l as [|x l IH]; intros [|n] H; cbn in *; try lia; auto.
  apply IH; lia.
Qed.

Lemma nth_upd_other : forall {A} n m (f : A -> A) l d, n <> m ->
  nth m (upd_nth n f l) d = nth m l d.
Proof.
  intros A n m f l d; revert n m; induction l as [|x l IH]; intros [|n] [|m] H; cbn; auto; try lia.
Qed.

Lemma total_upd_nth : forall n f l, (n < List.length l)%nat ->
  total (upd_nth n f l) = total l - value (nth n l (mkAcct 0 0)) + value (f (nth n l (mkAcct 0 0))).
Proof.
  intros n f l; revert n; induction l as [|x l IH]; intros [|n] H; cbn in *; try lia.
  rewrite IH by lia. lia.
Qed.

Lemma in_range_spec : forall {A} i (l : list A),
  in_range i l = true <-> 0 <= i < Z.of_nat (List.length l).
Proof. intros; unfold in_range; rewrite andb_true_iff, Z.leb_le, Z.ltb_lt; tauto. Qed.

Lemma total_store : forall i v l, in_range i l = true ->
  total (store i v l) = total l - load i l + v.
Proof.
  intros i v l H. unfold store, load. rewrite H.
  apply in_range_spec in H. rewrite total_upd_nth by lia. reflexivity.
Qed.

Lemma load_store_same : forall i v l, in_range i l = true -> load i (store i v l) = v.
Proof.
  intros i v l H. unfold load. rewrite in_range_store, H. unfold store. rewrite H.
  apply in_range_spec in H. rewrite nth_upd_same by lia. reflexivity.
Qed.

Lemma load_store_other : forall i j v l, i <> j -> load j (store i v l) = load j l.
Proof.
  intros i j v l Hij. unfold load. rewrite in_range_store.
  destruct (in_range j l) eqn:Hj; [|reflexivity]. unfold store.
  destruct (in_range i l) eqn:Hi; [|reflexivity].
  apply in_range_spec in Hi, Hj. rewrite nth_upd_other by lia. reflexivity.
Qed.

Lemma length_init_accts : Z.of_nat (List.length init_accts) = NUM_ACCTS.
Proof. unfold init_accts. rewrite length_map, length_seq. reflexivity. Qed.

Lemma draw_spec : forall rand f r1 r2 s x y s1,
  draw rand f r1 r2 s = Some (x, y, s1) ->
  0 <= r1 < NUM_ACCTS -> 0 <= r2 < NUM_ACCTS ->
  x <> y /\ 0 <= x < NUM_ACCTS /\ 0 <= y < NUM_ACCTS /\ s1 = set_tid s (tid s1).
Proof.
  intros rand f; induction f as [|f IH]; intros r1 r2 s x y s1 H H1 H2; [discriminate|].
  cbn [draw] in H. destruct (r1 =? r2) eqn:E.
  - destruct (rand (tid s)) as [a t1]. destruct (rand t1) as [b t2].
    apply IH in H as [Hne [Hx [Hy Hs]]];
      try (apply Z.mod_pos_bound; unfold NUM_ACCTS; lia).
    refine (conj Hne (conj Hx (conj Hy _))). rewrite Hs. reflexivity.
  - injection H as <- <- <-. apply Z.eqb_neq in E.
    exact (conj E (conj H1 (conj H2 eq_refl))).
Qed.

(** ** [int] bounds *)

Lemma wrap_int_small : forall x, INT_MIN <= x <= INT_MAX -> wrap_int x = x.
Proof.
  intros x H. unfold wrap_int, INT_MIN, INT_MAX in *.
  destruct (Z_lt_le_dec x 0) as [Hn|Hp].
  - replace (x mod 2 ^ 32) with (x + 2 ^ 32)
      by (apply Z.mod_unique with (q := -1); [left|]; lia).
    destruct (x + 2 ^ 32 >=? 2 ^ 31) eqn:E; [lia|].
    rewrite Z.geb_leb in E. apply Z.leb_gt in E. lia.
  - rewrite Z.mod_small by lia.
    destruct (x >=? 2 ^ 31) eqn:E; [|reflexivity].
    apply Z.geb_le in E. lia.
Qed.

Lemma within_load : forall lo hi i l, within lo hi l = true -> in_range i l = true ->
  lo <= load i l <= hi.
Proof.
  intros lo hi i l H Hin. unfold load. rewrite Hin. apply in_range_spec in Hin.
  unfold within in H. rewrite forallb_forall in H.
  assert (Hi : (Z.to_nat i < List.length l)%nat) by lia.
  specialize (H _ (nth_In l (mkAcct 0 0) Hi)).
  apply andb_true_iff in H as [H1 H2]. apply Z.leb_le in H1, H2. lia.
Qed.

Lemma within_upd : forall lo hi n f l, within lo hi l = true ->
  (forall a, lo <= value (f a) <= hi) -> within lo hi (upd_nth n f l) = true.
Proof.
  intros lo hi n f l; revert n; induction l as [|x l IH]; intros [|n] H Hf; cbn in *; auto.
  - apply andb_true_iff in H as [_ H]. rewrite H, andb_true_r.
    specialize (Hf x). apply andb_true_iff. split; apply Z.leb_le; lia.
  - apply andb_true_iff in H as [H1 H]. rewrite H1. cbn. apply IH; auto.
Qed.

Lemma within_store : forall lo hi i v l, within lo hi l = true -> lo <= v <= hi ->
  within lo hi (store i v l) = true.
Proof.
  intros lo hi i v l H Hv. unfold store. destruct (in_range i l); [|exact H].
  apply within_upd; [exact H|]. intros a. exact Hv.
Qed.

Lemma within_weaken : forall lo hi lo' hi' l, lo' <= lo -> hi <= hi' ->
  within lo hi l = true -> within lo' hi' l = true.
Proof.
  intros lo hi lo' hi' l H1 H2 H. unfold within in *. rewrite forallb_forall in *.
  intros a Ha. specialize (H a Ha). apply andb_true_iff in H as [A B].
  apply Z.leb_le in A, B. apply andb_true_iff. split; apply Z.leb_le; lia.
Qed.

(** The band of balances left for the last [j] transfers, narrowing by
    [TRFR_AMT] from below and by [c] from above per transfer. *)
Lemma within_down : forall lo hi c, 0 <= c -> forall j m,
  within (lo + TRFR_AMT * Z.of_nat (S j)) (hi - c * Z.of_nat (S j)) m = true ->
  within (lo + TRFR_AMT * Z.of_nat j) (hi - c * Z.of_nat j) m = true.
Proof.
  intros lo hi c Hc j m H. rewrite Nat2Z.inj_succ, !Z.mul_succ_r in H.
  refine (within_weaken _ _ _ _ _ _ _ H); unfold TRFR_AMT; lia.
Qed.

(** One transfer of the HTM body from balances in the band: no [int]
    overflow, and the balances stay in the band of one transfer fewer. *)
Lemma within_debit : forall lo hi c, INT_MIN <= lo -> hi <= INT_MAX -> 0 <= c ->
  forall j m r1 r2, r1 <> r2 -> in_range r1 m = true -> in_range r2 m = true ->
  within (lo + TRFR_AMT * Z.of_nat (S j)) (hi - c * Z.of_nat (S j)) m = true ->
  TRFR_AMT <= load r1 m ->
  wrap_int (load r1 m - TRFR_AMT) = load r1 m - TRFR_AMT /\
  wrap_int (load r2 m - TRFR_AMT) = load r2 m - TRFR_AMT /\
  within (lo + TRFR_AMT * Z.of_nat j) (hi - c * Z.of_nat j)
    (store r2 (load r2 m - TRFR_AMT) (store r1 (load r1 m - TRFR_AMT) m)) = true.
Proof.
  intros lo hi c Hlo Hhi Hc j m r1 r2 Hne I1 I2 H Ha.
  pose proof (within_load _ _ _ _ H I1) as B1. pose proof (within_load _ _ _ _ H I2) as B2.
  pose proof (within_down lo hi c Hc j m H) as H'.
  rewrite Nat2Z.inj_succ, !Z.mul_succ_r in B1, B2.
  assert (Hj : 0 <= c * Z.of_nat j) by (apply Z.mul_nonneg_nonneg; lia).
  unfold TRFR_AMT, INT_MIN, INT_MAX in *.
  split; [apply wrap_int_small; unfold INT_MIN, INT_MAX; lia|].
  split; [apply wrap_int_small; unfold INT_MIN, INT_MAX; lia|].
  apply within_store; [apply within_store; [exact H'|]|]; lia.
Qed.

(** The same for a transfer of the software body. *)
Lemma within_move : forall lo hi, INT_MIN <= lo -> hi <= INT_MAX ->
  forall j m r1 r2, r1 <> r2 -> in_range r1 m = true -> in_range r2 m = true ->
  within (lo + TRFR_AMT * Z.of_nat (S j)) (hi - TRFR_AMT * Z.of_nat (S j)) m = true ->
  TRFR_AMT <= load r1 m ->
  wrap_int (load r1 m - TRFR_AMT) = load r1 m - TRFR_AMT /\
  wrap_int (load r2 m + TRFR_AMT) = load r2 m + TRFR_AMT /\
  within (lo + TRFR_AMT * Z.of_nat j) (hi - TRFR_AMT * Z.of_nat j)
    (store r2 (load r2 m + TRFR_AMT) (store r1 (load r1 m - TRFR_AMT) m)) = true.
Proof.
  intros lo hi Hlo Hhi j m r1 r2 Hne I1 I2 H Ha.
  pose proof (within_load _ _ _ _ H I1) as B1. pose proof (within_load _ _ _ _ H I2) as B2.
  pose proof (within_down lo hi TRFR_AMT ltac:(unfold TRFR_AMT; lia) j m H) as H'.
  rewrite Nat2Z.inj_succ in B1, B2.
  unfold TRFR_AMT, INT_MIN, INT_MAX in *.
  split; [apply wrap_int_small; unfold INT_MIN, INT_MAX; lia|].
  split; [apply wrap_int_small; unfold INT_MIN, INT_MAX; lia|].
  apply within_store; [apply within_store; [exact H'|]|]; lia.
Qed.

Lemma all_nonneg_load : forall i l, all_nonneg l = true -> 0 <= load i l.
Proof.
  intros i l H. unfold load. destruct (in_range i l); [|lia].
  unfold all_nonneg in H. rewrite forallb_forall in H.
  destruct (Nat.lt_ge_cases (Z.to_nat i) (List.length l)) as [Hl|Hl].
  - specialize (H _ (nth_In l (mkAcct 0 0) Hl)). apply Z.leb_le in H. exact H.
  - rewrite nth_overflow by exact Hl. cbn. lia.
Qed.

Lemma all_nonneg_upd : forall n f l, all_nonneg l = true -> (forall a, 0 <= value (f a)) ->
  all_nonneg (upd_nth n f l) = true.
Proof.
  intros n f l; revert n; induction l as [|x l IH]; intros [|n] H Hf; cbn in *; auto.
  - apply andb_true_iff in H as [_ H]. rewrite H, andb_true_r. apply Z.leb_le, Hf.
  - apply andb_true_iff in H as [H1 H]. rewrite H1. cbn. apply IH; auto.
Qed.

Lemma all_nonneg_store : forall i v l, all_nonneg l = true -> 0 <= v ->
  all_nonneg (store i v l) = true.
Proof.
  intros i v l H Hv. unfold store. destruct (in_range i l); auto.
  apply all_nonneg_upd; auto.
Qed.

Lemma total_nonneg : forall l, all_nonneg l = true -> 0 <= total l.
Proof.
  induction l as [|a l IH]; intros H; cbn [total]; [lia|].
  unfold all_nonneg in H. cbn [forallb] in H.
  apply andb_true_iff in H as [H1 H2]. apply Z.leb_le in H1. specialize (IH H2). lia.
Qed.

Lemma load_pair_le_total : forall r1 r2 l, all_nonneg l = true -> r1 <> r2 ->
  in_range r1 l = true -> in_range r2 l = true -> load r1 l + load r2 l <= total l.
Proof.
  intros r1 r2 l Hn Hne I1 I2.
  assert (N1 : all_nonneg (store r1 0 l) = true) by (apply all_nonneg_store; [exact Hn|lia]).
  assert (N2 : all_nonneg (store r2 0 (store r1 0 l)) = true)
    by (apply all_nonneg_store; [exact N1|lia]).
  pose proof (total_nonneg _ N2) as P.
  rewrite total_store in P by (rewrite in_range_store; exact I2).
  rewrite total_store in P by exact I1.
  rewrite load_store_other in P by exact Hne. lia.
Qed.

(** A transfer of the software body from non-negative balances whose sum
    fits in an [int]: [a2 + TRFR_AMT] is at most the sum, so nothing
    overflows, and the balances stay non-negative with the same sum. *)
Lemma nonneg_move : forall (j : nat) m r1 r2,
  r1 <> r2 -> in_range r1 m = true -> in_range r2 m = true ->
  all_nonneg m = true /\ total m <= INT_MAX -> TRFR_AMT <= load r1 m ->
  wrap_int (load r1 m - TRFR_AMT) = load r1 m - TRFR_AMT /\
  wrap_int (load r2 m + TRFR_AMT) = load r2 m + TRFR_AMT /\
  (all_nonneg (store r2 (load r2 m + TRFR_AMT) (store r1 (load r1 m - TRFR_AMT) m)) = true /\
   total (store r2 (load r2 m + TRFR_AMT) (store r1 (load r1 m - TRFR_AMT) m)) <= INT_MAX).
Proof.
  intros j m r1 r2 Hne I1 I2 [Hn Ht] Ha.
  pose proof (load_pair_le_total r1 r2 m Hn Hne I1 I2) as P.
  pose proof (all_nonneg_load r1 m Hn) as P1. pose proof (all_nonneg_load r2 m Hn) as P2.
  assert (T : total (store r2 (load r2 m + TRFR_AMT) (store r1 (load r1 m - TRFR_AMT) m))
              = total m).
  { rewrite total_store by (rewrite in_range_store; exact I2).
    rewrite total_store by exact I1. rewrite load_store_other by exact Hne. lia. }
  rewrite T. unfold TRFR_AMT, INT_MAX in *.
  split; [apply wrap_int_small; unfold INT_MIN, INT_MAX; lia|].
  split; [apply wrap_int_small; unfold INT_MIN, INT_MAX; lia|].
  split; [|lia].
  apply all_nonneg_store; [apply all_nonneg_store; [exact Hn|lia]|lia].
Qed.

Lemma inv_down_zero : forall (Inv : nat -> list Acct -> Prop),
  (forall j m, Inv (S j) m -> Inv j m) -> forall j m, Inv j m -> Inv 0%nat m.
Proof. intros Inv H j; induction j as [|j IH]; intros m Hm; auto. Qed.

(** ** The HTM body *)

Lemma htm_transfers_shape : forall rand j f s s',
  htm_transfers rand j f s = Some s' ->
  List.length (accts s') = List.length (accts s) /\ s' = set_tid (set_accts s (accts s')) (tid s').
Proof.
  intros rand j; induction j as [|j IH]; intros f s s' H; cbn [htm_transfers] in H.
  - injection H as <-. split; reflexivity.
  - destruct (draw rand f 0 0 s) as [[[r1 r2] s1]|] eqn:D; [|discriminate].
    apply draw_spec in D as [_ [_ [_ Hs1]]]; try (unfold NUM_ACCTS; lia).
    destruct (load r1 (accts s1) <? TRFR_AMT).
    + injection H as <-. rewrite Hs1. split; reflexivity.
    + apply IH in H as [Hl Hs]. rewrite accts_set_accts, !length_store in Hl.
      split; [rewrite Hl, Hs1; reflexivity|]. rewrite Hs at 1. rewrite Hs1. reflexivity.
Qed.

(** A committed hardware attempt: the body ran to its end, and the seed it
    left indexes [counter]. *)
Lemma htm_attempt_committed : forall rand ok f s s',
  htm_attempt rand ok f s = HtmCommitted s' ->
  ok = true /\ Z.testbit (seqlock s) 0 = false /\
  exists s1, htm_transfers rand 10 f s = Some s1 /\ in_range (tid s1) (counter s) = true /\
    s' = set_counter s1 (upd_nth (Z.to_nat (tid s1)) (fun c => wrap64 (c + 1)) (counter s)).
Proof.
  intros rand ok f s s' H. unfold htm_attempt in H.
  destruct ok; [|discriminate]. cbn [negb] in H.
  destruct (Z.testbit (seqlock s) 0); [discriminate|].
  destruct (htm_transfers rand 10 f s) as [s1|] eqn:T; [|discriminate].
  pose proof (htm_transfers_shape _ _ _ _ _ T) as [_ Hs].
  assert (C : counter s1 = counter s) by (rewrite Hs; reflexivity).
  rewrite C in H.
  destruct (in_range (tid s1) (counter s)) eqn:R; [|discriminate].
  injection H as <-. split; [reflexivity|]. split; [reflexivity|]. exists s1. auto.
Qed.

Section HtmBody.
Variable rand : Z -> Z * Z.
(** [Inv j m]: a property of the balances [m] with [j] transfers of the
    region to go, kept by a transfer that computes without overflow. *)
Variable Inv : nat -> list Acct -> Prop.
Hypothesis Inv_debit : forall j m r1 r2,
  r1 <> r2 -> in_range r1 m = true -> in_range r2 m = true -> Inv (S j) m ->
  TRFR_AMT <= load r1 m ->
  wrap_int (load r1 m - TRFR_AMT) = load r1 m - TRFR_AMT /\
  wrap_int (load r2 m - TRFR_AMT) = load r2 m - TRFR_AMT /\
  Inv j (store r2 (load r2 m - TRFR_AMT) (store r1 (load r1 m - TRFR_AMT) m)).
Hypothesis Inv_down : forall j m, Inv (S j) m -> Inv j m.

Lemma htm_transfers_inv : forall j f s s',
  htm_transfers rand j f s = Some s' -> Z.of_nat (List.length (accts s)) = NUM_ACCTS ->
  Inv j (accts s) ->
  Inv 0%nat (accts s') /\
  exists k, (k <= j)%nat /\ total (accts s') = total (accts s) - 2 * TRFR_AMT * Z.of_nat k.
Proof.
  induction j as [|j IH]; intros f s s' H Hl HI; cbn [htm_transfers] in H.
  - injection H as <-. split; [exact HI|]. exists 0%nat. split; [lia|]. cbn. lia.
  - destruct (draw rand f 0 0 s) as [[[r1 r2] s1]|] eqn:D; [|discriminate].
    apply draw_spec in D as [Hne [Hr1 [Hr2 Hs1]]]; try (unfold NUM_ACCTS; lia).
    assert (Ha : accts s1 = accts s) by (rewrite Hs1; reflexivity).
    rewrite Ha in H.
    destruct (load r1 (accts s) <? TRFR_AMT) eqn:Hlt.
    + injection H as <-. rewrite Ha. split; [exact (inv_down_zero Inv Inv_down _ _ HI)|].
      exists 0%nat. split; [lia|]. lia.
    + apply Z.ltb_ge in Hlt.
      assert (I1 : in_range r1 (accts s) = true) by (apply in_range_spec; lia).
      assert (I2 : in_range r2 (accts s) = true) by (apply in_range_spec; lia).
      destruct (Inv_debit _ _ _ _ Hne I1 I2 HI Hlt) as [W1 [W2 HI']].
      rewrite W1, W2 in H.
      apply IH in H as [HI0 [k [Hk Ht]]];
        [| rewrite accts_set_accts, !length_store; exact Hl | rewrite accts_set_accts; exact HI'].
      split; [exact HI0|].
      exists (S k). split; [lia|]. rewrite Ht, accts_set_accts.
      rewrite total_store, total_store; try (apply in_range_spec; try rewrite length_store; lia).
      rewrite load_store_other by auto. unfold TRFR_AMT. lia.
Qed.

End HtmBody.

(** ** The software body *)

Lemma length_writeback : forall ws m, List.length (writeback ws m) = List.length m.
Proof.
  induction ws as [|e ws IH]; intros m; [reflexivity|]. cbn. rewrite IH, length_store. reflexivity.
Qed.

Lemma writeback_app : forall ws e m,
  writeback (ws ++ [e]) m = store (addr e) (value e) (writeback ws m).
Proof. intros. unfold writeback. rewrite fold_left_app. reflexivity. Qed.

Lemma load_writeback : forall ws a m, in_range a m = true ->
  load a (writeback ws m) =
  match find (fun e => addr e =? a) (rev ws) with Some e => value e | None => load a m end.
Proof.
  intros ws a m Hin. induction ws as [|e ws IH] using rev_ind; [reflexivity|].
  rewrite writeback_app, rev_app_distr. cbn [rev app find].
  destruct (addr e =? a) eqn:E.
  - apply Z.eqb_eq in E. rewrite E. apply load_store_same.
    apply in_range_spec. apply in_range_spec in Hin. rewrite length_writeback. exact Hin.
  - apply Z.eqb_neq in E. rewrite load_store_other by exact E. exact IH.
Qed.

Lemma sw_read_view : forall f a s v s', sw_read f a s = Done v s' ->
  in_range a (accts s) = true ->
  v = load a (view s) /\ accts s' = accts s /\ write_set s' = write_set s.
Proof.
  intros f a s v s' H Hin. pose proof (sw_read_done _ _ _ _ _ H) as [Ha Hw].
  split; [|auto]. unfold view. rewrite load_writeback by exact Hin.
  unfold sw_read in H. destruct (find _ _) as [e|].
  - injection H as <- _. reflexivity.
  - destruct (read_loop f a (load a (accts s)) s) as [v0 s0| |] eqn:R; cbn [bind] in H; try discriminate.
    injection H as <- _. apply read_loop_done in R as [[_ [-> _]]|[_ [_ [-> _]]]]; reflexivity.
Qed.

Lemma sw_transfers_accts : forall rand j f s s',
  sw_transfers rand j f s = Done tt s' -> accts s' = accts s.
Proof.
  intros rand j; induction j as [|j IH]; intros f s s' H; cbn [sw_transfers] in H.
  - injection H as <-. reflexivity.
  - destruct (draw rand f 0 0 s) as [[[r1 r2] s1]|] eqn:D; [|discriminate].
    apply draw_spec in D as [_ [_ [_ Hs1]]]; try (unfold NUM_ACCTS; lia).
    assert (A1 : accts s1 = accts s) by (rewrite Hs1; reflexivity).
    destruct (sw_read f r1 s1) as [a1 s2| |] eqn:R1; cbn [bind] in H; try discriminate.
    apply sw_read_done in R1 as [A2 _].
    destruct (a1 <? TRFR_AMT).
    + injection H as <-. congruence.
    + destruct (sw_read f r2 s2) as [a2 s3| |] eqn:R2; cbn [bind] in H; try discriminate.
      apply sw_read_done in R2 as [A3 _].
      unfold sw_write in H. cbn [bind] in H. apply IH in H.
      rewrite H. cbn. congruence.
Qed.

Lemma sw_transfers_aborted : forall rand j f s s',
  sw_transfers rand j f s = Aborted s' -> accts s' = accts s /\ write_set s' = [].
Proof.
  intros rand j; induction j as [|j IH]; intros f s s' H; cbn [sw_transfers] in H; [discriminate|].
  destruct (draw rand f 0 0 s) as [[[r1 r2] s1]|] eqn:D; [|discriminate].
  apply draw_spec in D as [_ [_ [_ Hs1]]]; try (unfold NUM_ACCTS; lia).
  assert (A1 : accts s1 = accts s) by (rewrite Hs1; reflexivity).
  destruct (sw_read f r1 s1) as [a1 s2|s2|] eqn:R1; cbn [bind] in H; try discriminate.
  - apply sw_read_done in R1 as [A2 _].
    destruct (a1 <? TRFR_AMT); [discriminate|].
    destruct (sw_read f r2 s2) as [a2 s3|s3|] eqn:R2; cbn [bind] in H; try discriminate.
    + apply sw_read_done in R2 as [A3 _].
      unfold sw_write in H. cbn [bind] in H. apply IH in H as [A6 W6].
      split; [|exact W6]. rewrite A6. cbn. rewrite A3, A2, A1. reflexivity.
    + injection H as <-. apply sw_read_aborted in R2 as [A3 [_ W3]].
      split; [congruence|exact W3].
  - injection H as <-. apply sw_read_aborted in R1 as [A2 [_ W2]].
    split; [congruence|exact W2].
Qed.

Lemma sw_commit_done : forall f s s', sw_commit f s = Done tt s' ->
  accts s' = view s /\ write_set s' = [].
Proof.
  intros f s s' H. unfold view. unfold sw_commit in H. destruct (write_set s) as [|e ws] eqn:W.
  - injection H as <-. rewrite W. split; reflexivity.
  - destruct (cas_loop f s) as [[] s1| |] eqn:C; cbn [bind] in H; try discriminate.
    apply cas_loop_done in C as [Ca [Cw _]].
    assert (K : exists s2, accts s2 = accts s1 /\ write_set s2 = write_set s1 /\
                Done tt (set_write_set (set_read_set (set_seqlock
                  (set_accts s2 (writeback (write_set s2) (accts s2)))
                  (wrap32 (seqlock s2 + 1))) []) []) = Done tt s').
    { destruct (counters_differ (snap_counter s1) (counter s1)).
      - destruct (sw_validate f s1) as [[] s2| |] eqn:V; cbn [bind] in H; try discriminate.
        apply validate_done in V. subst s2.
        exists (set_rv s1 (seqlock s1)). split; [reflexivity|split; [reflexivity|exact H]].
      - exists s1. split; [reflexivity|split; [reflexivity|exact H]]. }
    destruct K as [s2 [A2 [W2 E]]]. injection E as <-.
    split; [|reflexivity].
    change (writeback (write_set s2) (accts s2) = writeback (e :: ws) (accts s)).
    rewrite A2, W2, Ca, Cw, W. reflexivity.
Qed.

(** The shape of a software attempt: a commit empties the write set and
    keeps the number of accounts; an abort leaves [accts] as it was. *)
Lemma sw_attempt_shape : forall rand f s,
  (forall s', sw_attempt rand f s = Done tt s' ->
     write_set s' = [] /\ List.length (accts s') = List.length (accts s)) /\
  (forall s', sw_attempt rand f s = Aborted s' -> accts s' = accts s /\ write_set s' = []).
Proof.
  intros rand f s. unfold sw_attempt.
  destruct (sw_begin f s) as [[] s1|s1|] eqn:B; cbn [bind];
    [| unfold sw_begin in B; destruct (spin_even f s); discriminate
     | split; intros; discriminate].
  apply sw_begin_done in B as [A1 W1].
  destruct (sw_transfers rand 10 f s1) as [[] s2|s2|] eqn:T; cbn [bind];
    try (split; intros; discriminate).
  - apply sw_transfers_accts in T. split.
    + intros s' C. apply sw_commit_done in C as [A3 W3]. split; [exact W3|].
      rewrite A3. unfold view. rewrite length_writeback, T, A1. reflexivity.
    + intros s' C. apply sw_commit_aborted in C as [A3 [_ W3]].
      split; [congruence|exact W3].
  - split; [intros; discriminate|]. intros s' E. injection E as <-.
    apply sw_transfers_aborted in T as [A2 W2]. split; [congruence|exact W2].
Qed.

Section SwBody.
Variable rand : Z -> Z * Z.
(** [Inv j m]: a property of the balances [m], as the transaction sees
    them, with [j] transfers to go, kept by a transfer that computes without
    overflow. *)
Variable Inv : nat -> list Acct -> Prop.
Hypothesis Inv_move : forall j m r1 r2,
  r1 <> r2 -> in_range r1 m = true -> in_range r2 m = true -> Inv (S j) m ->
  TRFR_AMT <= load r1 m ->
  wrap_int (load r1 m - TRFR_AMT) = load r1 m - TRFR_AMT /\
  wrap_int (load r2 m + TRFR_AMT) = load r2 m + TRFR_AMT /\
  Inv j (store r2 (load r2 m + TRFR_AMT) (store r1 (load r1 m - TRFR_AMT) m)).
Hypothesis Inv_down : forall j m, Inv (S j) m -> Inv j m.

Lemma sw_transfers_inv : forall j f s s',
  sw_transfers rand j f s = Done tt s' -> Z.of_nat (List.length (accts s)) = NUM_ACCTS ->
  Inv j (view s) ->
  total (view s') = total (view s) /\ Inv 0%nat (view s').
Proof.
  induction j as [|j IH]; intros f s s' H Hl HI; cbn [sw_transfers] in H.
  - injection H as <-. auto.
  - destruct (draw rand f 0 0 s) as [[[r1 r2] s1]|] eqn:D; [|discriminate].
    apply draw_spec in D as [Hne [Hr1 [Hr2 Hs1]]]; try (unfold NUM_ACCTS; lia).
    assert (A1 : accts s1 = accts s /\ write_set s1 = write_set s)
      by (rewrite Hs1; split; reflexivity).
    destruct A1 as [A1 W1].
    assert (Lv : Z.of_nat (List.length (view s)) = NUM_ACCTS)
      by (unfold view; rewrite length_writeback; exact Hl).
    destruct (sw_read f r1 s1) as [a1 s2| |] eqn:R1; cbn [bind] in H; try discriminate.
    apply sw_read_view in R1 as [Ha1 [A2 W2]]; [|apply in_range_spec; rewrite A1; lia].
    assert (V1 : view s1 = view s) by (unfold view; rewrite A1, W1; reflexivity).
    assert (V2 : view s2 = view s) by (unfold view; rewrite A2, W2, A1, W1; reflexivity).
    rewrite V1 in Ha1.
    destruct (a1 <? TRFR_AMT) eqn:Hlt.
    + injection H as <-. rewrite V2. split; [reflexivity|].
      exact (inv_down_zero Inv Inv_down _ _ HI).
    + apply Z.ltb_ge in Hlt.
      destruct (sw_read f r2 s2) as [a2 s3| |] eqn:R2; cbn [bind] in H; try discriminate.
      apply sw_read_view in R2 as [Ha2 [A3 W3]]; [|apply in_range_spec; rewrite A2, A1; lia].
      rewrite V2 in Ha2.
      assert (V3 : view s3 = view s) by (unfold view; rewrite A3, W3; exact V2).
      assert (I1 : in_range r1 (view s) = true) by (apply in_range_spec; lia).
      assert (I2 : in_range r2 (view s) = true) by (apply in_range_spec; lia).
      subst a1 a2.
      destruct (Inv_move _ _ _ _ Hne I1 I2 HI Hlt) as [E1 [E2 HI']].
      unfold sw_write in H. cbn [bind] in H. rewrite E1, E2 in H.
      match type of H with sw_transfers _ _ _ ?x = _ => set (s5 := x) in H end.
      assert (A5 : accts s5 = accts s3) by reflexivity.
      assert (V5 : view s5 = store r2 (load r2 (view s) + TRFR_AMT)
                               (store r1 (load r1 (view s) - TRFR_AMT) (view s3))).
      { unfold view. change (write_set s5) with
          ((write_set s3 ++ [mkAcct r1 (load r1 (view s) - TRFR_AMT)])
             ++ [mkAcct r2 (load r2 (view s) + TRFR_AMT)]).
        rewrite A5, !writeback_app. reflexivity. }
      rewrite V3 in V5.
      apply IH in H as [T6 HI6]; [| rewrite A5, A3, A2, A1; exact Hl | rewrite V5; exact HI'].
      split; [|exact HI6].
      rewrite T6, V5.
      rewrite total_store, total_store; try (apply in_range_spec; try rewrite length_store; lia).
      rewrite load_store_other by exact Hne. lia.
Qed.

Lemma sw_attempt_inv : forall f s s',
  sw_attempt rand f s = Done tt s' -> write_set s = [] ->
  Z.of_nat (List.length (accts s)) = NUM_ACCTS -> Inv 10 (accts s) ->
  total (accts s') = total (accts s) /\ Inv 0%nat (accts s').
Proof.
  intros f s s' H W Hl HI. unfold sw_attempt in H.
  destruct (sw_begin f s) as [[] s1| |] eqn:B; cbn [bind] in H; try discriminate.
  apply sw_begin_done in B as [A1 W1].
  destruct (sw_transfers rand 10 f s1) as [[] s2| |] eqn:T; cbn [bind] in H; try discriminate.
  apply sw_commit_done in H as [A3 _].
  assert (V1 : view s1 = accts s) by (unfold view; rewrite W1, W, A1; reflexivity).
  apply sw_transfers_inv in T as [T2 HI2]; [| rewrite A1; exact Hl | rewrite V1; exact HI].
  rewrite A3. split; [rewrite T2, V1; reflexivity|exact HI2].
Qed.

End SwBody.

(** ** The transaction loop and the thread loop *)

Section TxnInv.
Variable rand : Z -> Z * Z.
Variable htm_ok : nat -> bool.
(** [Q] holds of the accounts left by every attempt that commits from the
    accounts [a0] with an empty write set. *)
Variable a0 : list Acct.
Variable Q : list Acct -> Prop.
Hypothesis htm_Q : forall k f s s1, accts s = a0 -> write_set s = [] ->
  htm_attempt rand (htm_ok k) f s = HtmCommitted s1 -> Q (accts s1).
Hypothesis sw_Q : forall f s s1, accts s = a0 -> write_set s = [] ->
  sw_attempt rand f s = Done tt s1 -> Q (accts s1).

Lemma txn_loop_Q : forall n fuel attempts k s t s' k',
  txn_loop rand n fuel attempts htm_ok k s = Some (t, s', k') ->
  accts s = a0 -> write_set s = [] -> Q (accts s') /\ write_set s' = [].
Proof.
  induction n as [|n IH]; intros fuel attempts k s t s' k' H A W; [discriminate|].
  cbn [txn_loop] in H.
  destruct (htm_attempt rand (htm_ok k) fuel s) as [s1| |] eqn:Ha; try discriminate.
  - injection H as _ <- _. split; [exact (htm_Q _ _ _ _ A W Ha)|].
    apply htm_attempt_committed in Ha as [_ [_ [s2 [T [_ E]]]]].
    apply htm_transfers_shape in T as [_ Hs]. rewrite E, Hs. exact W.
  - destruct (attempts >? 0).
    + destruct (txn_loop rand n fuel (attempts - 1) htm_ok (S k) s) as [[[t1 s1] k1]|] eqn:T;
        [|discriminate].
      injection H as _ <- _. exact (IH _ _ _ _ _ _ _ T A W).
    + destruct (sw_attempt_shape rand fuel s) as [D Ab].
      destruct (sw_attempt rand fuel s) as [[] s1|s1|] eqn:E; try discriminate.
      * injection H as _ <- _. split; [exact (sw_Q _ _ _ A W E)|exact (proj1 (D _ eq_refl))].
      * destruct (Ab _ eq_refl) as [A1 W1].
        destruct (txn_loop rand n fuel 5 htm_ok (S k) s1) as [[[t1 s2] k1]|] eqn:T;
          [|discriminate].
        injection H as _ <- _. apply (IH _ _ _ _ _ _ _ T); [congruence|exact W1].
Qed.

End TxnInv.

Section ThInv.
Variable rand : Z -> Z * Z.
Variable htm_ok : nat -> bool.
(** [I i m]: a property of the accounts [m] with [i] transactions to go,
    kept by every transaction. *)
Variable I : nat -> list Acct -> Prop.
Hypothesis I_txn : forall i n fuel k s t s1 k1,
  txn rand n fuel htm_ok k s = Some (t, s1, k1) -> write_set s = [] -> I (S i) (accts s) ->
  I i (accts s1) /\ write_set s1 = [].

Lemma th_loop_I : forall i n fuel k h w s h' w' s',
  th_loop rand i n fuel htm_ok k h w s = Some (h', w', s') ->
  write_set s = [] -> I i (accts s) -> I 0%nat (accts s') /\ write_set s' = [].
Proof.
  induction i as [|i IH]; intros n fuel k h w s h' w' s' H W HI.
  - cbn in H. injection H as _ _ <-. auto.
  - cbn [th_loop] in H.
    destruct (txn rand n fuel htm_ok k s) as [[[t s1] k1]|] eqn:T; [|discriminate].
    destruct (I_txn _ _ _ _ _ _ _ _ T W HI) as [HI1 W1].
    destruct (committed_by_htm t); eapply IH; eauto.
Qed.

End ThInv.

(** A committed software attempt from non-negative balances whose sum fits
    in an [int] keeps the sum and leaves the balances non-negative. *)
Lemma nonneg_attempt : forall rand f s s', sw_attempt rand f s = Done tt s' ->
  write_set s = [] -> Z.of_nat (List.length (accts s)) = NUM_ACCTS ->
  all_nonneg (accts s) = true -> total (accts s) <= INT_MAX ->
  total (accts s') = total (accts s) /\ all_nonneg (accts s') = true.
Proof.
  intros rand f s s' H W Hl Hn Ht.
  destruct (sw_attempt_inv rand (fun _ m => all_nonneg m = true /\ total m <= INT_MAX)
              nonneg_move (fun _ _ HI => HI) f s s' H W Hl (conj Hn Ht)) as [T [N _]].
  exact (conj T N).
Qed.

(** A transaction with every hardware region aborting. *)
Lemma sw_only_txn : forall rand n fuel k s t s' k' T0,
  txn rand n fuel (fun _ => false) k s = Some (t, s', k') -> write_set s = [] ->
  T0 <= INT_MAX ->
  Z.of_nat (List.length (accts s)) = NUM_ACCTS /\ all_nonneg (accts s) = true /\
    total (accts s) = T0 ->
  (Z.of_nat (List.length (accts s')) = NUM_ACCTS /\ all_nonneg (accts s') = true /\
     total (accts s') = T0) /\ write_set s' = [].
Proof.
  intros rand n fuel k s t s' k' T0 H W HT [Hl [Hn Ht]]. unfold txn in H.
  refine (txn_loop_Q rand (fun _ => false) (accts s)
    (fun m => Z.of_nat (List.length m) = NUM_ACCTS /\ all_nonneg m = true /\ total m = T0)
    _ _ _ _ _ _ _ _ _ _ H eq_refl W).
  - intros k0 f s0 s1 _ _ Ha. unfold htm_attempt in Ha. cbn in Ha. discriminate.
  - intros f s0 s1 A W0 E. rewrite <- A in Hl, Hn, Ht.
    destruct (nonneg_attempt _ _ _ _ E W0 Hl Hn ltac:(lia)) as [T1 N1].
    destruct (sw_attempt_shape rand f s0) as [D _]. destruct (D _ E) as [_ L1].
    split; [rewrite L1; exact Hl|]. split; [exact N1|]. lia.
Qed.

(** A transaction from balances at least [10 * TRFR_AMT] inside [lo, hi]
    (a band inside the [int] range) ends with balances in [lo, hi] and
    does not raise their sum. *)
Lemma within_txn : forall rand n fuel htm_ok k s t s' k' lo hi T0,
  txn rand n fuel htm_ok k s = Some (t, s', k') -> write_set s = [] ->
  INT_MIN <= lo -> hi <= INT_MAX -> Z.of_nat (List.length (accts s)) = NUM_ACCTS ->
  within (lo + TRFR_AMT * 10) (hi - TRFR_AMT * 10) (accts s) = true -> total (accts s) <= T0 ->
  (Z.of_nat (List.length (accts s')) = NUM_ACCTS /\ within lo hi (accts s') = true /\
     total (accts s') <= T0) /\ write_set s' = [].
Proof.
  intros rand n fuel htm_ok k s t s' k' lo hi T0 H W Hlo Hhi Hl Hw Ht. unfold txn in H.
  set (Inv := fun j m => within (lo + TRFR_AMT * Z.of_nat j) (hi - TRFR_AMT * Z.of_nat j) m = true).
  assert (Hc : 0 <= TRFR_AMT) by (unfold TRFR_AMT; lia).
  assert (I0 : forall m, Inv 0%nat m -> within lo hi m = true).
  { intros m Hm. unfold Inv in Hm. cbn [Z.of_nat] in Hm.
    rewrite Z.mul_0_r, Z.add_0_r, Z.sub_0_r in Hm. exact Hm. }
  refine (txn_loop_Q rand htm_ok (accts s)
    (fun m => Z.of_nat (List.length m) = NUM_ACCTS /\ within lo hi m = true /\ total m <= T0)
    _ _ _ _ _ _ _ _ _ _ H eq_refl W).
  - intros k0 f s0 s1 A _ Ha.
    apply htm_attempt_committed in Ha as [_ [_ [s2 [T [_ E]]]]].
    rewrite <- A in Hl, Hw, Ht.
    pose proof (htm_transfers_shape _ _ _ _ _ T) as [L2 _].
    destruct (htm_transfers_inv rand Inv (within_debit lo hi TRFR_AMT Hlo Hhi Hc)
                (within_down lo hi TRFR_AMT Hc) 10 f s0 s2 T Hl Hw) as [HI [m [_ Hm]]].
    rewrite E. change (accts (set_counter s2 ?x)) with (accts s2).
    split; [rewrite L2; exact Hl|]. split; [exact (I0 _ HI)|].
    rewrite Hm. unfold TRFR_AMT. lia.
  - intros f s0 s1 A W0 E. rewrite <- A in Hl, Hw, Ht.
    destruct (sw_attempt_inv rand Inv (within_move lo hi Hlo Hhi) (within_down lo hi TRFR_AMT Hc)
                f s0 s1 E W0 Hl Hw) as [T1 HI].
    destruct (sw_attempt_shape rand f s0) as [D _]. destruct (D _ E) as [_ L1].
    split; [rewrite L1; exact Hl|]. split; [exact (I0 _ HI)|]. lia.
Qed.

(** * Further properties of the code *)

(** ** Helpers *)

Lemma validate_even : forall f s, Z.even (seqlock s) = true ->
  sw_validate (S f) s =
  if reads_valid (read_set s) (accts s) then Done tt (set_rv s (seqlock s))
  else Aborted (set_write_set (set_read_set (set_rv s (seqlock s)) []) []).
Proof.
  intros f s He.
  assert (Hb : Z.testbit (seqlock s) 0 = false)
    by (rewrite Z.bit0_odd, <- Z.negb_even, He; reflexivity).
  cbn [sw_validate spin_even]. cbv zeta. rewrite rv_set_rv, Hb.
  change (read_set (set_rv s (seqlock s))) with (read_set s).
  change (accts (set_rv s (seqlock s))) with (accts s).
  change (seqlock (set_rv s (seqlock s))) with (seqlock s).
  rewrite rv_set_rv, Z.eqb_refl.
  destruct (reads_valid _ _); reflexivity.
Qed.

Lemma cas_even : forall f s, Z.even (seqlock s) = true ->
  cas_loop (S (S f)) s =
  if (seqlock s =? rv s) || reads_valid (read_set s) (accts s)
  then Done tt (set_seqlock (set_rv s (seqlock s)) (wrap32 (seqlock s + 1)))
  else Aborted (set_write_set (set_read_set (set_rv s (seqlock s)) []) []).
Proof.
  intros f s He. cbn [cas_loop]. destruct (seqlock s =? rv s) eqn:E; cbn [orb].
  - apply Z.eqb_eq in E. rewrite E. reflexivity.
  - rewrite validate_even by exact He.
    destruct (reads_valid _ _); cbn [bind]; [|reflexivity].
    cbn [cas_loop]. change (seqlock (set_rv s (seqlock s))) with (seqlock s).
    rewrite rv_set_rv, Z.eqb_refl. reflexivity.
Qed.

Lemma skipn_nth : forall {A} n (l : list A) d, (n < List.length l)%nat ->
  skipn n l = nth n l d :: skipn (S n) l.
Proof.
  intros A n l d; revert n; induction l as [|x l IH]; intros [|n] H; cbn in *; try lia; auto.
  apply IH; lia.
Qed.

Lemma money_loop_firstn : forall k i m acc, 0 <= i -> (Z.to_nat i + k <= List.length m)%nat ->
  money_loop k i m acc = acc + total (firstn k (skipn (Z.to_nat i) m)).
Proof.
  induction k as [|k IH]; intros i m acc Hi Hk; cbn [money_loop].
  - cbn. lia.
  - rewrite IH by lia.
    rewrite (skipn_nth (Z.to_nat i) m (mkAcct 0 0)) by lia.
    replace (Z.to_nat (i + 1)) with (S (Z.to_nat i)) by lia.
    cbn [firstn total].
    unfold load. replace (in_range i m) with true by (symmetry; apply in_range_spec; lia).
    lia.
Qed.

Lemma money_loop_total : forall m, Z.of_nat (List.length m) = NUM_ACCTS ->
  money_loop (Z.to_nat NUM_ACCTS) 0 m 0 = total m.
Proof.
  intros m Hl. rewrite money_loop_firstn by (unfold NUM_ACCTS in *; lia).
  change (Z.to_nat 0) with 0%nat. cbn [skipn].
  rewrite firstn_all2 by (unfold NUM_ACCTS in *; lia). lia.
Qed.

Lemma barrier_spin_below : forall f which numThreads bs,
  nth (Z.to_nat which) bs 0 < numThreads -> barrier_spin f which numThreads bs = None.
Proof.
  induction f as [|f IH]; intros which numThreads bs H; [reflexivity|].
  cbn [barrier_spin]. apply Z.ltb_lt in H. rewrite H. apply IH. apply Z.ltb_lt, H.
Qed.

(** ** X1: [sw_validate] with an even [seqlock] *)

(** [sw_validate] called while [seqlock] is even makes a single pass: it
    sets [rv] to [seqlock] and returns when every read-set entry still
    matches [accts]; otherwise it aborts, clearing both logs.  No account is
    written either way. *)
Theorem sw_validate_even_single_pass : forall f s, Z.even (seqlock s) = true ->
  sw_validate (S f) s =
  if reads_valid (read_set s) (accts s) then Done tt (set_rv s (seqlock s))
  else Aborted (set_write_set (set_read_set (set_rv s (seqlock s)) []) []).
Proof. intros f s He. apply validate_even. exact He. Qed.

Lemma sw_validate_even_single_pass_witness :
  Z.even (seqlock stale_state) = true /\
  sw_validate 1 stale_state = Aborted (set_write_set (set_read_set (set_rv stale_state 2) []) []).
Proof.
  split; [reflexivity|].
  rewrite (sw_validate_even_single_pass 0 stale_state eq_refl). vm_compute. reflexivity.
Defined.

(** ** X2: the compare-and-swap loop of [sw_commit] *)

(** With [seqlock] even, the CAS loop of [sw_commit] takes the writeback
    window at once when [rv = seqlock]; otherwise it revalidates first, and
    then takes the window at the current [seqlock] (setting [rv] to it) if
    every read-set entry still matches memory, or aborts with both logs
    cleared if one does not. *)
Theorem cas_loop_acquires : forall f s, Z.even (seqlock s) = true ->
  cas_loop (S (S f)) s =
  if (seqlock s =? rv s) || reads_valid (read_set s) (accts s)
  then Done tt (set_seqlock (set_rv s (seqlock s)) (wrap32 (seqlock s + 1)))
  else Aborted (set_write_set (set_read_set (set_rv s (seqlock s)) []) []).
Proof. intros f s He. apply cas_even. exact He. Qed.

Lemma cas_loop_acquires_witness :
  Z.even (seqlock behind_state) = true /\
  cas_loop 2 behind_state = Done tt (set_seqlock (set_rv behind_state 2) 3).
Proof.
  split; [reflexivity|].
  rewrite (cas_loop_acquires 0 behind_state eq_refl). vm_compute. reflexivity.
Defined.

(** ** X3: a writing commit that sees no HTM commit *)

(** A commit with a non-empty write set, an even [seqlock], [rv = seqlock]
    or a read set that still matches memory, and no counter slot changed
    since [sw_begin] writes the write set back to [accts], moves [seqlock]
    on by two (odd during the writeback, even after), sets [rv] to the old
    [seqlock] and clears both logs; the counters are not touched.  When
    [rv = seqlock] the read set is not looked at. *)
Theorem sw_commit_acquire_writeback_release : forall f s,
  (0 < List.length (write_set s))%nat -> Z.even (seqlock s) = true ->
  rv s = seqlock s \/ reads_valid (read_set s) (accts s) = true ->
  counters_differ (snap_counter s) (counter s) = false ->
  sw_commit (S (S f)) s =
  Done tt (mkState (writeback (write_set s) (accts s)) (wrap32 (seqlock s + 2)) (counter s)
                   [] [] (seqlock s) (snap_counter s) (tid s)).
Proof.
  intros f s Hw He Hv Hc. unfold sw_commit.
  destruct (write_set s) as [|e ws] eqn:W; [cbn in Hw; lia|].
  rewrite cas_even by exact He.
  replace ((seqlock s =? rv s) || reads_valid (read_set s) (accts s)) with true
    by (destruct Hv as [Hv|Hv]; [rewrite Hv, Z.eqb_refl|rewrite Hv, orb_true_r]; reflexivity).
  cbn [bind].
  change (counters_differ (snap_counter s) (counter s)) with
    (counters_differ (snap_counter (set_seqlock (set_rv s (seqlock s)) (wrap32 (seqlock s + 1))))
                     (counter (set_seqlock (set_rv s (seqlock s)) (wrap32 (seqlock s + 1))))) in Hc.
  rewrite Hc. cbn [bind].
  unfold set_write_set, set_read_set, set_seqlock, set_accts, set_rv. cbn.
  rewrite W. f_equal. f_equal.
  unfold wrap32. rewrite Z.add_mod_idemp_l by (apply Z.pow_nonzero; lia).
  f_equal. lia.
Qed.

Lemma sw_commit_acquire_writeback_release_witness :
  (0 < List.length (write_set buffered_state))%nat /\ Z.even (seqlock buffered_state) = true /\
  (rv buffered_state = seqlock buffered_state \/
   reads_valid (read_set buffered_state) (accts buffered_state) = true) /\
  counters_differ (snap_counter buffered_state) (counter buffered_state) = false /\
  sw_commit 2 buffered_state =
  Done tt (mkState (writeback (write_set buffered_state) (accts buffered_state))
                   (wrap32 (seqlock buffered_state + 2)) (counter buffered_state) [] []
                   (seqlock buffered_state) (snap_counter buffered_state) (tid buffered_state)).
Proof.
  assert (H1 : (0 < List.length (write_set buffered_state))%nat) by (simpl; lia).
  assert (H2 : Z.even (seqlock buffered_state) = true) by reflexivity.
  assert (H3 : rv buffered_state = seqlock buffered_state \/
               reads_valid (read_set buffered_state) (accts buffered_state) = true)
    by (left; reflexivity).
  assert (H4 : counters_differ (snap_counter buffered_state) (counter buffered_state) = false)
    by (vm_compute; reflexivity).
  refine (conj H1 (conj H2 (conj H3 (conj H4 _)))).
  exact (sw_commit_acquire_writeback_release 0 buffered_state H1 H2 H3 H4).
Defined.

(** ** X4: reading one's own writes *)

(** After [sw_write a v] and then [sw_write b w] for another account [b],
    [sw_read a] returns [v] and [sw_read b] returns [w], for any fuel: the
    values come from the write set, with no validation, no load from
    [accts] and no read-set entry. *)
Theorem sw_read_own_writes : forall f a v b w s s1 s2,
  sw_write a v s = Done tt s1 -> sw_write b w s1 = Done tt s2 -> b <> a ->
  sw_read f a s2 = Done v s2 /\ sw_read f b s2 = Done w s2.
Proof.
  intros f a v b w s s1 s2 H1 H2 Hne. unfold sw_write in H1, H2.
  injection H1 as <-. injection H2 as <-.
  unfold sw_read. unfold set_write_set. cbn [write_set].
  rewrite !rev_app_distr. cbn [rev app find addr value].
  rewrite (proj2 (Z.eqb_neq b a) Hne), !Z.eqb_refl. split; reflexivity.
Qed.

Lemma sw_read_own_writes_witness :
  sw_write 3 7 init_state = Done tt (set_write_set init_state [mkAcct 3 7]) /\
  sw_write 1 5 (set_write_set init_state [mkAcct 3 7]) =
    Done tt (set_write_set init_state [mkAcct 3 7; mkAcct 1 5]) /\
  1 <> 3 /\
  sw_read 0 3 (set_write_set init_state [mkAcct 3 7; mkAcct 1 5]) =
    Done 7 (set_write_set init_state [mkAcct 3 7; mkAcct 1 5]).
Proof.
  assert (H1 : sw_write 3 7 init_state = Done tt (set_write_set init_state [mkAcct 3 7]))
    by reflexivity.
  assert (H2 : sw_write 1 5 (set_write_set init_state [mkAcct 3 7]) =
               Done tt (set_write_set init_state [mkAcct 3 7; mkAcct 1 5])) by reflexivity.
  assert (H3 : 1 <> 3) by lia.
  refine (conj H1 (conj H2 (conj H3 _))).
  exact (proj1 (sw_read_own_writes 0 3 7 1 5 _ _ _ H1 H2 H3)).
Defined.

(** ** X5: what a commit leaves in [accts] *)

(** After a commit that returns, an account holds the value of the last
    entry for it in the write set (the value [sw_read] would have returned
    from the write set), and an account with no entry keeps its value. *)
Theorem sw_commit_last_write_wins : forall f s s' a,
  sw_commit f s = Done tt s' -> in_range a (accts s) = true ->
  load a (accts s') =
  match find (fun e => addr e =? a) (rev (write_set s)) with
  | Some e => value e
  | None => load a (accts s)
  end.
Proof.
  intros f s s' a H Hin. apply sw_commit_done in H as [-> _].
  unfold view. apply load_writeback. exact Hin.
Qed.

Lemma sw_commit_last_write_wins_witness :
  sw_commit 2 buffered_state =
    Done tt (mkState (writeback (write_set buffered_state) init_accts) 2 zero_counters
                     [] [] 0 zero_counters 0) /\
  in_range 3 (accts buffered_state) = true /\
  load 3 (writeback (write_set buffered_state) init_accts) = 9.
Proof.
  assert (H : sw_commit 2 buffered_state =
              Done tt (mkState (writeback (write_set buffered_state) init_accts) 2 zero_counters
                               [] [] 0 zero_counters 0)) by (vm_compute; reflexivity).
  assert (Hin : in_range 3 (accts buffered_state) = true) by reflexivity.
  refine (conj H (conj Hin _)).
  exact (sw_commit_last_write_wins 2 buffered_state _ 3 H Hin).
Defined.

(** ** X6: the account draw *)

(** The draw loop [while (r1 == r2)] of a transfer yields two distinct
    account indices, both in [0, NUM_ACCTS), and changes nothing but the
    seed [tid]. *)
Theorem draw_distinct_accounts : forall rand f s r1 r2 s1,
  draw rand f 0 0 s = Some (r1, r2, s1) ->
  r1 <> r2 /\ 0 <= r1 < NUM_ACCTS /\ 0 <= r2 < NUM_ACCTS /\ s1 = set_tid s (tid s1).
Proof.
  intros rand f s r1 r2 s1 H. apply draw_spec in H; [exact H|unfold NUM_ACCTS; lia..].
Qed.

Lemma draw_distinct_accounts_witness :
  exists r1 r2 s1, draw sample_rand 5 0 0 init_state = Some (r1, r2, s1) /\ r1 <> r2.
Proof.
  destruct (draw sample_rand 5 0 0 init_state) as [[[r1 r2] s1]|] eqn:E.
  - exists r1, r2, s1. split; [reflexivity|].
    exact (proj1 (draw_distinct_accounts sample_rand 5 init_state r1 r2 s1 E)).
  - vm_compute in E. discriminate.
Defined.

(** ** X7: what a committed HTM transaction changes *)



(** ** X8: a committed software transaction conserves money *)

(** A software attempt ([sw_begin], the ten transfers, [sw_commit]) that
    commits, started with an empty write set over the [NUM_ACCTS] accounts
    with non-negative balances whose sum is at most [INT_MAX] (so that no
    [int] addition overflows), leaves the sum of the balances unchanged and
    the write set empty. *)
Theorem sw_attempt_conserves_total : forall rand f s s',
  sw_attempt rand f s = Done tt s' -> write_set s = [] ->
  Z.of_nat (List.length (accts s)) = NUM_ACCTS ->
  all_nonneg (accts s) = true -> total (accts s) <= INT_MAX ->
  total (accts s') = total (accts s) /\ write_set s' = [].
Proof.
  intros rand f s s' H W Hl Hn Ht.
  split; [exact (proj1 (nonneg_attempt _ _ _ _ H W Hl Hn Ht))|].
  destruct (sw_attempt_shape rand f s) as [D _]. exact (proj1 (D _ H)).
Qed.

Lemma sw_attempt_conserves_total_witness :
  exists s', sw_attempt sample_rand 20 (set_tid init_state 1) = Done tt s' /\
    total (accts s') = total init_accts.
Proof.
  destruct (sw_attempt sample_rand 20 (set_tid init_state 1)) as [[] s'|s'|] eqn:E.
  - exists s'. split; [reflexivity|].
    assert (Hn : all_nonneg (accts (set_tid init_state 1)) = true) by (vm_compute; reflexivity).
    assert (Ht : total (accts (set_tid init_state 1)) <= INT_MAX)
      by (apply Z.leb_le; vm_compute; reflexivity).
    exact (proj1 (sw_attempt_conserves_total sample_rand 20 _ s' E eq_refl eq_refl Hn Ht)).
  - vm_compute in E. discriminate.
  - vm_compute in E. discriminate.
Defined.

(** ** X9: no overdraft on the software path *)

(** When every hardware region aborts, so that every transaction runs on
    the software path, a thread's run from accounts with non-negative
    balances whose sum is at most [INT_MAX] (and an empty write set) keeps
    the sum and ends with every balance non-negative: a transfer debits only
    an account holding at least [TRFR_AMT], and no credit can overflow. *)
Theorem sw_only_run_never_overdraws : forall rand numThreads id n fuel s h w s',
  th_run rand numThreads id n fuel (fun _ => false) s = Some (h, w, s') ->
  write_set s = [] -> Z.of_nat (List.length (accts s)) = NUM_ACCTS ->
  all_nonneg (accts s) = true -> total (accts s) <= INT_MAX ->
  all_nonneg (accts s') = true /\ total (accts s') = total (accts s).
Proof.
  intros rand nt id n fuel s h w s' H W Hl Hn Ht. unfold th_run in H.
  set (I := fun (_ : nat) (m : list Acct) => Z.of_nat (List.length m) = NUM_ACCTS /\ all_nonneg m = true /\
                               total m = total (accts s)).
  assert (Step : forall i n' f k s0 t s1 k1,
            txn rand n' f (fun _ => false) k s0 = Some (t, s1, k1) -> write_set s0 = [] ->
            I (S i) (accts s0) -> I i (accts s1) /\ write_set s1 = [])
    by (intros i n' f k s0 t s1 k1 T W0 I0; exact (sw_only_txn _ _ _ _ _ _ _ _ _ T W0 Ht I0)).
  destruct (th_loop_I rand (fun _ => false) I Step _ _ _ _ _ _ _ _ _ _ H W
              (conj Hl (conj Hn eq_refl))) as [[_ [N T]] _].
  exact (conj N T).
Qed.

Lemma sw_only_run_never_overdraws_witness :
  exists h w s', th_run sample_rand NUM_TXN 0 7 20 (fun _ => false) init_state = Some (h, w, s') /\
    all_nonneg (accts s') = true.
Proof.
  destruct (th_run sample_rand NUM_TXN 0 7 20 (fun _ => false) init_state)
    as [[[h w] s']|] eqn:E.
  - exists h, w, s'. split; [reflexivity|].
    assert (Hn : all_nonneg (accts init_state) = true) by (vm_compute; reflexivity).
    assert (Ht : total (accts init_state) <= INT_MAX) by (apply Z.leb_le; vm_compute; reflexivity).
    exact (proj1 (sw_only_run_never_overdraws _ _ _ _ _ _ _ _ _ E eq_refl eq_refl Hn Ht)).
  - vm_compute in E. discriminate.
Defined.

(** ** X10: money is never created *)

(** Whatever the hardware does with each region, a thread's run over the
    [NUM_ACCTS] accounts, started with an empty write set and with every
    balance at least [10 * TRFR_AMT * workload] inside the [int] range (a
    transaction moves a balance by at most [10 * TRFR_AMT], so no [int]
    operation overflows), never raises the sum of the balances: software
    transactions conserve it and hardware transactions lower it. *)
Theorem th_run_never_raises_total : forall rand numThreads id n fuel htm_ok s h w s',
  th_run rand numThreads id n fuel htm_ok s = Some (h, w, s') -> 1 <= numThreads ->
  write_set s = [] -> Z.of_nat (List.length (accts s)) = NUM_ACCTS ->
  within (INT_MIN + 10 * TRFR_AMT * workload numThreads)
         (INT_MAX - 10 * TRFR_AMT * workload numThreads) (accts s) = true ->
  total (accts s') <= total (accts s).
Proof.
  intros rand nt id n fuel htm_ok s h w s' H Hnt W Hl Hw. unfold th_run in H.
  set (T0 := total (accts s)).
  set (I := fun (i : nat) (m : list Acct) => Z.of_nat (List.length m) = NUM_ACCTS /\
              within (INT_MIN + 10 * TRFR_AMT * Z.of_nat i)
                     (INT_MAX - 10 * TRFR_AMT * Z.of_nat i) m = true /\ total m <= T0).
  assert (Step : forall i n' f k s0 t s1 k1,
            txn rand n' f htm_ok k s0 = Some (t, s1, k1) -> write_set s0 = [] ->
            I (S i) (accts s0) -> I i (accts s1) /\ write_set s1 = []).
  { intros i n' f k s0 t s1 k1 T W0 [L0 [H0 T1]].
    refine (within_txn rand n' f htm_ok k s0 t s1 k1 (INT_MIN + 10 * TRFR_AMT * Z.of_nat i)
              (INT_MAX - 10 * TRFR_AMT * Z.of_nat i) T0 T W0 _ _ L0 _ T1);
      [unfold TRFR_AMT; lia | unfold TRFR_AMT; lia |].
    refine (within_weaken _ _ _ _ _ _ _ H0); rewrite Nat2Z.inj_succ; unfold TRFR_AMT; lia. }
  assert (Hq : 0 <= Z.quot NUM_TXN nt) by (apply Z.quot_pos; unfold NUM_TXN; lia).
  assert (Start : I (Z.to_nat (Z.quot NUM_TXN nt)) (accts s)).
  { split; [exact Hl|]. split; [|lia]. rewrite Z2Nat.id by exact Hq. exact Hw. }
  destruct (th_loop_I rand htm_ok I Step _ _ _ _ _ _ _ _ _ _ H W Start) as [[_ [_ R]] _].
  exact R.
Qed.

Lemma th_run_never_raises_total_witness :
  exists h w s', th_run small_rand NUM_TXN 0 7 20 Nat.even init_state = Some (h, w, s') /\
    total (accts s') <= total (accts init_state).
Proof.
  destruct (th_run small_rand NUM_TXN 0 7 20 Nat.even init_state) as [[[h w] s']|] eqn:E.
  - exists h, w, s'. split; [reflexivity|].
    assert (Hw : within (INT_MIN + 10 * TRFR_AMT * workload NUM_TXN)
                        (INT_MAX - 10 * TRFR_AMT * workload NUM_TXN) (accts init_state) = true)
      by (vm_compute; reflexivity).
    exact (th_run_never_raises_total _ _ _ _ _ _ _ _ _ _ E ltac:(unfold NUM_TXN; lia)
             eq_refl eq_refl Hw).
  - vm_compute in E. discriminate.
Defined.

(** ** X11: [barrier] *)

(** [barrier(which)] adds one to [barriers[which]] and then, with no other
    thread arriving, returns exactly when that count (this arrival
    included) has reached [numThreads], and spins for ever otherwise.  The
    count is never reset. *)
Theorem barrier_passes_when_all_arrived : forall fuel which numThreads bs,
  in_range which bs = true ->
  barrier (S fuel) which numThreads bs =
  if nth (Z.to_nat which) bs 0 + 1 <? numThreads then None
  else Some (upd_nth (Z.to_nat which) (fun c => c + 1) bs).
Proof.
  intros fuel which nt bs H. unfold barrier. rewrite H.
  apply in_range_spec in H.
  destruct (nth (Z.to_nat which) bs 0 + 1 <? nt) eqn:E.
  - apply barrier_spin_below. rewrite nth_upd_same by lia. apply Z.ltb_lt, E.
  - cbn [barrier_spin]. rewrite nth_upd_same by lia. rewrite E. reflexivity.
Qed.

Lemma barrier_passes_when_all_arrived_witness :
  in_range 0 barriers_init = true /\
  barrier 1 0 1 barriers_init = Some (1 :: repeat 0 15) /\
  barrier 1 0 2 barriers_init = None.
Proof.
  assert (H : in_range 0 barriers_init = true) by reflexivity.
  refine (conj H (conj _ _)).
  - rewrite (barrier_passes_when_all_arrived 0 0 1 barriers_init H). reflexivity.
  - rewrite (barrier_passes_when_all_arrived 0 0 2 barriers_init H). reflexivity.
Defined.

(** ** X12: the money totals of [main] *)

(** [main]'s loop over [accts[i].value] for [i < NUM_ACCTS] computes the
    sum of all balances of a vector of [NUM_ACCTS] accounts. *)
Theorem main_money_loop_sums_balances : forall m, Z.of_nat (List.length m) = NUM_ACCTS ->
  money_loop (Z.to_nat NUM_ACCTS) 0 m 0 = total m.
Proof. intros m Hl. apply money_loop_total. exact Hl. Qed.

Lemma main_money_loop_sums_balances_witness :
  Z.of_nat (List.length init_accts) = NUM_ACCTS /\
  money_loop (Z.to_nat NUM_ACCTS) 0 init_accts 0 = total init_accts.
Proof.
  split; [reflexivity|]. apply main_money_loop_sums_balances. reflexivity.
Defined.

Lemma main_args_one : main_args ["hynorec"; "1"]%string = Start 1.
Proof. vm_compute. reflexivity. Qed.

Lemma init_loop_accts : init_loop (Z.to_nat NUM_ACCTS) 0 [] = init_accts.
Proof. vm_compute. reflexivity. Qed.

Lemma money_init : money_loop (Z.to_nat NUM_ACCTS) 0 init_accts 0 = NUM_ACCTS * INIT_BALANCE.
Proof. vm_compute. reflexivity. Qed.

Lemma barrier_one : forall fuel, barrier (S fuel) 0 1 barriers_init = Some (1 :: repeat 0 15).
Proof. reflexivity. Qed.

Lemma main_run_one_unfold : forall rand n fuel htm_ok,
  main_run rand n (S fuel) htm_ok ["hynorec"; "1"]%string =
  match th_run rand 1 0 n (S fuel) htm_ok init_state with
  | None => Stuck
  | Some (h, w, s) =>
      Finished [NumberOfThreads 1; ThreadLine 0 h w (wrap32 (h + w)); TotalTime;
                MoneyBefore (NUM_ACCTS * INIT_BALANCE);
                MoneyAfter (money_loop (Z.to_nat NUM_ACCTS) 0 (accts s) 0)]
  end.
Proof.
  intros rand n fuel htm_ok. unfold main_run.
  rewrite main_args_one, init_loop_accts, money_init, barrier_one. reflexivity.
Qed.

Lemma th_run_inv : forall rand numThreads id n fuel htm_ok s h w s',
  th_run rand numThreads id n fuel htm_ok s = Some (h, w, s') ->
  write_set s = [] -> Z.of_nat (List.length (accts s)) = NUM_ACCTS ->
  write_set s' = [] /\ Z.of_nat (List.length (accts s')) = NUM_ACCTS.
Proof.
  intros rand nt id n fuel htm_ok s h w s' H W Hl. unfold th_run in H.
  set (I := fun (_ : nat) (m : list Acct) => Z.of_nat (List.length m) = NUM_ACCTS).
  assert (Step : forall i n' f k s0 t s1 k1,
            txn rand n' f htm_ok k s0 = Some (t, s1, k1) -> write_set s0 = [] ->
            I (S i) (accts s0) -> I i (accts s1) /\ write_set s1 = []).
  { intros i n' f k s0 t s1 k1 T W0 L0. unfold txn in T.
    refine (txn_loop_Q rand htm_ok (accts s0) (fun m => Z.of_nat (List.length m) = NUM_ACCTS)
              _ _ _ _ _ _ _ _ _ _ T eq_refl W0).
    - intros k' f' s2 s3 A _ Ha. apply htm_attempt_committed in Ha as [_ [_ [s4 [T4 [_ E]]]]].
      apply htm_transfers_shape in T4 as [L4 _]. rewrite E.
      change (accts (set_counter s4 ?x)) with (accts s4). rewrite L4, A. exact L0.
    - intros f' s2 s3 A _ E. destruct (sw_attempt_shape rand f' s2) as [D _].
      destruct (D _ E) as [_ L3]. rewrite L3, A. exact L0. }
  destruct (th_loop_I rand htm_ok I Step _ _ _ _ _ _ _ _ _ _ H W Hl) as [L W'].
  exact (conj W' L).
Qed.

(** ** X13: [main] with one thread *)

(** Run with the argument ["1"], [main] prints the number of threads, then
    thread 0's report of its hardware and software commits, the time, a
    total before of [NUM_ACCTS * INIT_BALANCE] and a total after that is the
    sum of the balances the thread left; or the thread never finishes. *)
Theorem main_run_one_thread : forall rand n fuel htm_ok,
  main_run rand n (S fuel) htm_ok ["hynorec"; "1"]%string =
  match th_run rand 1 0 n (S fuel) htm_ok init_state with
  | None => Stuck
  | Some (h, w, s) =>
      Finished [NumberOfThreads 1; ThreadLine 0 h w (wrap32 (h + w)); TotalTime;
                MoneyBefore (NUM_ACCTS * INIT_BALANCE); MoneyAfter (total (accts s))]
  end.
Proof.
  intros rand n fuel htm_ok. rewrite main_run_one_unfold.
  destruct (th_run rand 1 0 n (S fuel) htm_ok init_state) as [[[h w] s]|] eqn:E; [|reflexivity].
  destruct (th_run_inv _ _ _ _ _ _ _ _ _ _ E eq_refl length_init_accts) as [_ L].
  rewrite (money_loop_total _ L). reflexivity.
Qed.

(** ** The software path leaves [counter] alone *)












(** ** The seed left by a draw *)



(** ** Hardware regions that never commit *)

Section NoCommit.
Variable rand : Z -> Z * Z.
(** Every seed the generator leaves is past the 72 slots of [counter]. *)
Hypothesis seed_high : forall x, Z.of_nat COUNTER_SLOTS <= snd (rand x).




End NoCommit.

(** ** X14: HTM only and software only, when no region can commit *)



(** ** X15: HTM only and software only, when regions commit *)

(** With the generator [small_rand], whose seeds always index [counter],
    one transaction of thread 0 (the run with [NUM_TXN] threads) ends in
    different accounts on the two paths: the committed region debits both
    accounts of a transfer ([a2 - TRFR_AMT]) and lowers the sum of the
    balances, while the software body moves [TRFR_AMT] and keeps it. *)
Theorem htm_only_and_sw_only_differ_small_rand :
  exists h1 w1 s1 h2 w2 s2,
    th_run small_rand NUM_TXN 0 7 20 (fun _ => true) init_state = Some (h1, w1, s1) /\
    th_run small_rand NUM_TXN 0 7 20 (fun _ => false) init_state = Some (h2, w2, s2) /\
    h1 = 1 /\ w2 = 1 /\
    total (accts s1) < total init_accts /\ total (accts s2) = total init_accts /\
    accts s1 <> accts s2.
Proof.
  destruct (th_run small_rand NUM_TXN 0 7 20 (fun _ => true) init_state)
    as [[[h1 w1] s1]|] eqn:E1; [|vm_compute in E1; discriminate].
  destruct (th_run small_rand NUM_TXN 0 7 20 (fun _ => false) init_state)
    as [[[h2 w2] s2]|] eqn:E2; [|vm_compute in E2; discriminate].
  exists h1, w1, s1, h2, w2, s2. split; [reflexivity|]. split; [reflexivity|].
  vm_compute in E1, E2. injection E1 as <- <- <-. injection E2 as <- <- <-.
  split; [reflexivity|]. split; [reflexivity|].
  split; [vm_compute; reflexivity|]. split; [vm_compute; reflexivity|].
  intros Heq. apply (f_equal total) in Heq. vm_compute in Heq. discriminate.
Qed.
